(** * Teclead/search-module: AbstractSearchService

    A shallow embedding of the latest revision of
    [AbstractSearch.service.ts] (class [AbstractSearchService]) together with
    the interfaces of [models.ts], and the properties of its ranking,
    tiered query resolution, flattening and cache refresh.

    Conventions of the embedding.
    - A JavaScript string is a [string]: one [ascii] per code unit, read as
      Latin-1.  [toLowerCase], [trim], [split], [includes] and
      [Array.prototype.toString] are written out below.
    - [number] weights and ranks are integers ([Z]); a sum of two of them
      is rounded as the addition of doubles rounds it ([Js.addNumber]).
    - The service instance ([this]) is the record [World]; methods that read
      or mutate it are computations of the state monad [M].
    - The integrator's abstract methods ([getSearchCriteria],
      [getRawDataElement], [getSearchUrl]) are the fields of the class
      [Integrator]; they return normally.  The network is a parameter
      [fetch] of [getServerData], the clock a parameter [now].
    - Values have the shapes their TypeScript types declare, and the guards
      of the code on missing values ([!search], [!data], [child.children],
      [searchElement || ''], [getSearchCriteria(...) || []]) are kept.
    - [Array.prototype.sort] is stable. *)

From Stdlib Require Import List String Ascii ZArith Lia Bool Arith.
From Stdlib Require Import Sorted Permutation.
Import ListNotations.

Open Scope string_scope.
Open Scope list_scope.

Set Warnings "-register-all".

(** ** JavaScript string and array primitives *)

Module Js.

(** [String.prototype.toLowerCase] on one Latin-1 code unit: A-Z, and the
    accented capitals U+00C0..U+00DE except the multiplication sign. *)
Definition lowerChar (c : ascii) : ascii :=
  let n := nat_of_ascii c in
  if ((65 <=? n) && (n <=? 90))%nat
     || ((192 <=? n) && (n <=? 222) && negb (n =? 215))%nat
  then ascii_of_nat (n + 32)
  else c.

Fixpoint toLowerCase (s : string) : string :=
  match s with
  | EmptyString => EmptyString
  | String c s' => String (lowerChar c) (toLowerCase s')
  end.

(** White space as [trim] sees it (TAB, LF, VT, FF, CR, SP, NBSP). *)
Definition isWhiteSpace (c : ascii) : bool :=
  let n := nat_of_ascii c in
  ((9 <=? n) && (n <=? 13) || (n =? 32) || (n =? 160))%nat.

Fixpoint trimStart (s : string) : string :=
  match s with
  | EmptyString => EmptyString
  | String c s' => if isWhiteSpace c then trimStart s' else s
  end.

(** [allWhiteSpace s]: nothing but white space is left in [s]. *)
Fixpoint allWhiteSpace (s : string) : bool :=
  match s with
  | EmptyString => true
  | String c s' => isWhiteSpace c && allWhiteSpace s'
  end.

Fixpoint trimEnd (s : string) : string :=
  match s with
  | EmptyString => EmptyString
  | String c s' => if allWhiteSpace s then EmptyString else String c (trimEnd s')
  end.

Definition trim (s : string) : string := trimEnd (trimStart s).

(** [s.split(' ')]: always at least one piece; two adjacent spaces give an
    empty piece. *)
Fixpoint split (s : string) : list string :=
  match s with
  | EmptyString => [EmptyString]
  | String c s' =>
      if Ascii.eqb c " "%char then EmptyString :: split s'
      else match split s' with
           | piece :: pieces => String c piece :: pieces
           | [] => [String c EmptyString]
           end
  end.

(** [s.includes(sub)] *)
Fixpoint includes (s sub : string) : bool :=
  String.prefix sub s
  || match s with
     | EmptyString => false
     | String _ s' => includes s' sub
     end.

(** [!s] for a string: only the empty string is falsy. *)
Definition truthy (s : string) : bool :=
  match s with EmptyString => false | String _ _ => true end.

(** [arr.indexOf(x)] for an array of strings, [-1] when absent. *)
Fixpoint indexOfFrom (i : Z) (arr : list string) (x : string) : Z :=
  match arr with
  | [] => (-1)%Z
  | y :: arr' => if String.eqb y x then i else indexOfFrom (i + 1) arr' x
  end.

Definition indexOf (arr : list string) (x : string) : Z := indexOfFrom 0 arr x.

(** [arr.includes(x)] for an array of strings. *)
Definition arrayIncludes (arr : list string) (x : string) : bool :=
  existsb (String.eqb x) arr.

(** [arr.findIndex(p)], [-1] when no element satisfies [p]. *)
Fixpoint findIndexFrom {A : Type} (i : Z) (p : A -> bool) (arr : list A) : Z :=
  match arr with
  | [] => (-1)%Z
  | y :: arr' => if p y then i else findIndexFrom (i + 1) p arr'
  end.

Definition findIndex {A : Type} (p : A -> bool) (arr : list A) : Z :=
  findIndexFrom 0 p arr.

(** [[...new Set(arr)]]: the distinct elements in order of first occurrence. *)
Definition setAdd (seen : list string) (x : string) : list string :=
  if arrayIncludes seen x then seen else seen ++ [x].

Definition fromSet (arr : list string) : list string :=
  fold_left setAdd arr [].

(** [[...s]] for a string: its code units, one string each. *)
Fixpoint spread (s : string) : list string :=
  match s with
  | EmptyString => []
  | String c s' => String c EmptyString :: spread s'
  end.

(** [s.length] as a number. *)
Definition strLength (s : string) : Z := Z.of_nat (String.length s).

(** [arr.toString()]: the elements joined by commas. *)
Fixpoint toString (arr : list string) : string :=
  match arr with
  | [] => EmptyString
  | [x] => x
  | x :: rest => (x ++ "," ++ toString rest)%string
  end.

(** [arr.sort((a, b) => key(b) - key(a))]: a stable sort by descending key. *)
Section SortDesc.
Context {A : Type} (key : A -> Z).

Fixpoint insertDesc (x : A) (sorted : list A) : list A :=
  match sorted with
  | [] => [x]
  | y :: sorted' =>
      if (key y <=? key x)%Z then x :: sorted
      else y :: insertDesc x sorted'
  end.

Definition sortDesc (arr : list A) : list A :=
  fold_right insertDesc [] arr.
End SortDesc.

(** [s.split(sep)] for a separator of one code unit. *)
Fixpoint splitOn (sep : ascii) (s : string) : list string :=
  match s with
  | EmptyString => [EmptyString]
  | String c s' =>
      if Ascii.eqb c sep then EmptyString :: splitOn sep s'
      else match splitOn sep s' with
           | piece :: pieces => String c piece :: pieces
           | [] => [String c EmptyString]
           end
  end.

(** [s.slice(n)] *)
Fixpoint skip (n : nat) (s : string) : string :=
  match n, s with
  | O, _ => s
  | S n', String _ s' => skip n' s'
  | S _, EmptyString => EmptyString
  end.

(** [s.replace(pattern, replacement)] for a string pattern and a replacement
    without [$]: only the first occurrence is replaced. *)
Fixpoint replaceFirst (pattern replacement s : string) : string :=
  if String.prefix pattern s
  then (replacement ++ skip (String.length pattern) s)%string
  else match s with
       | EmptyString => EmptyString
       | String c s' => String c (replaceFirst pattern replacement s')
       end.

(** What is left of [s] behind its first closing parenthesis. *)
Fixpoint behindClosing (s : string) : option string :=
  match s with
  | EmptyString => None
  | String c s' => if Ascii.eqb c ")"%char then Some s' else behindClosing s'
  end.

(** [/\(([^)]+)\)/] at an opening parenthesis that is followed by [s]: at
    least one code unit other than [")"], then [")"]; what is left of [s]
    behind the match. *)
Definition behindGroup (s : string) : option string :=
  match s with
  | EmptyString => None
  | String c s' => if Ascii.eqb c ")"%char then None else behindClosing s'
  end.

(** [s.replace(/\(([^)]+)\)/, '')]: the leftmost match is removed. *)
Fixpoint removeGroup (s : string) : string :=
  match s with
  | EmptyString => EmptyString
  | String c s' =>
      if Ascii.eqb c "("%char
      then match behindGroup s' with
           | Some rest => rest
           | None => String c (removeGroup s')
           end
      else String c (removeGroup s')
  end.

(** The own properties of a plain object (listed as they were created; the
    order in which JavaScript enumerates them is not used below).  [get] is
    the own property [obj[key]], as [JSON.stringify] and [hasOwnProperty]
    see it.  [assign] is [obj[key] = value]: an assignment to [__proto__]
    creates no own property. *)
Fixpoint get {V : Type} (key : string) (obj : list (string * V)) : option V :=
  match obj with
  | [] => None
  | (k, v) :: obj' => if String.eqb k key then Some v else get key obj'
  end.

Fixpoint put {V : Type} (key : string) (value : V) (obj : list (string * V))
  : list (string * V) :=
  match obj with
  | [] => [(key, value)]
  | (k, v) :: obj' =>
      if String.eqb k key then (k, value) :: obj'
      else (k, v) :: put key value obj'
  end.

Definition assign {V : Type} (key : string) (value : V) (obj : list (string * V))
  : list (string * V) :=
  if String.eqb key "__proto__" then obj else put key value obj.

(** The number that holds an integer: the double nearest to it, ties to
    the even significand.  Integers up to [2 ^ 53] in magnitude are doubles
    themselves; magnitudes from [2 ^ 1024] on (Infinity) are not covered. *)
Definition toNumber (z : Z) : Z :=
  let m := Z.abs z in
  if (m <=? 2 ^ 53)%Z then z
  else
    let e := (Z.log2 m - 52)%Z in
    let q := (m / 2 ^ e)%Z in
    let r := (m mod 2 ^ e)%Z in
    let half := (2 ^ (e - 1))%Z in
    let q' := if (half <? r)%Z || ((r =? half)%Z && Z.odd q) then (q + 1)%Z else q in
    (Z.sgn z * (q' * 2 ^ e))%Z.

(** [a + b] on numbers that hold integers. *)
Definition addNumber (a b : Z) : Z := toNumber (a + b).

End Js.

(** ** The data model of [models.ts] *)

(** [SearchRankModel.searchElement : string | string[]].  At run time the
    value may also be missing and an array may nest: [isKeyWordFoundInSynonym]
    tests [!searchModel.searchElement] and [matchKeywordToSynonym] tests
    [Array.isArray(searchElement)] and [searchElement || ''], so the three
    shapes are kept apart by a tag. *)
Inductive SearchElement : Type :=
| Undefined
| Str (s : string)
| Arr (elements : list SearchElement).

(** [SearchRankModel]; an absent [fullMatch] is [false]. *)
Record SearchRankModel : Type := {
  searchElement : SearchElement;
  fullMatch : bool;
  rank : Z;
  synonymRank : Z
}.

(** [KeywordFound] *)
Record KeywordFound : Type := {
  found : bool;
  synonym : bool
}.

(** [AEMTypes] *)
Inductive AEMTypes : Type := Page | Asset.

(** [CommonSearchModel]: the integrator's fields of a flattened record, the
    optional type tag and the optional, engine-managed [searchRank]. *)
Record CommonSearchModel (Content : Type) : Type := {
  content : Content;
  type : option AEMTypes;
  searchRank : option Z
}.
Arguments content {Content} _.
Arguments type {Content} _.
Arguments searchRank {Content} _.

(** [SearchResultModel] *)
Record SearchResultModel (Content : Type) : Type := {
  search : string;
  foundItems : nat;
  results : list (CommonSearchModel Content)
}.
Arguments search {Content} _.
Arguments foundItems {Content} _.
Arguments results {Content} _.

(** [RawServerData]: a node of the remote tree; [children] may be missing. *)
Inductive RawServerData (Jcr : Type) : Type :=
| RawNode (_jcrContent : Jcr) (children : option (list (RawServerData Jcr))).
Arguments RawNode {Jcr} _ _.

Definition children {Jcr : Type} (node : RawServerData Jcr)
  : option (list (RawServerData Jcr)) :=
  match node with RawNode _ kids => kids end.

(** [ServerDataRequestConfig] *)
Record ServerDataRequestConfig : Type := {
  path : string;
  requestType : AEMTypes
}.

(** [Status] and [LastCacheUpdate] *)
Inductive Status : Type := Success | Error.

Record LastCacheUpdate : Type := {
  time : string;
  status : Status
}.

(** What [getSearchUrl] returns: [string | string[]]. *)
Inductive SearchUrls : Type :=
| OneUrl (url : string)
| ManyUrls (urls : list string).

(** The body of a response after [JSON.parse]: only [pathList] is read.  Each
    entry of [pathList] is handed to [setUpData(data: RawServerData[])], so an
    entry is an array of nodes, or falsy ([None]). *)
Record ServerData (Jcr : Type) : Type := {
  pathList : option (list (option (list (RawServerData Jcr))))
}.
Arguments pathList {Jcr} _.

(** One request of [getServerData]: [fetch], [response.text()] or
    [JSON.parse] throws, or a value is parsed ([None] for JSON [null]). *)
Inductive FetchOutcome (Jcr : Type) : Type :=
| Throws
| Parsed (data : option (ServerData Jcr)).
Arguments Throws {Jcr}.
Arguments Parsed {Jcr} _.

(** The events the properties speak about, in the order in which they
    happen: a request is started ([console.info] "Start fetching URL nr."),
    [searchForSingleWord] is invoked (the spy a test would install), a
    post-refresh callback is invoked, the [catch] of [triggerGetServerData]
    runs ([console.error]). *)
Inductive Event : Type :=
| StartFetching (urlIndex : nat) (url : string)
| SearchPass (word : string) (partialMatch : bool)
| CallbackInvoked (index : nat)
| ErrorLogged.

(** ** The integrator's side: the abstract methods of the class *)

Class Integrator : Type := {
  Jcr : Type;
  Content : Type;
  getSearchUrl : option ServerDataRequestConfig -> SearchUrls;
  getSearchCriteria : CommonSearchModel Content -> option (list SearchRankModel);
  getRawDataElement : RawServerData Jcr -> option AEMTypes -> CommonSearchModel Content
}.

(** ** The service instance *)

Record World `{Integrator} : Type := {
  rawData : list (CommonSearchModel Content);
  synonymsList : list (list string);
  lastCacheUpdate : option LastCacheUpdate;
  trace : list Event
}.

(** The state monad of the methods. *)
Definition M `{Integrator} (A : Type) : Type := World -> A * World.

Definition ret `{Integrator} {A : Type} (a : A) : M A := fun w => (a, w).

Definition bind `{Integrator} {A B : Type} (m : M A) (k : A -> M B) : M B :=
  fun w => let (a, w') := m w in k a w'.

Notation "x <- m ;; k" := (bind m (fun x => k))
  (at level 61, m at next level, right associativity).
Notation "m ;;; k" := (bind m (fun _ => k))
  (at level 61, right associativity).

Section Service.
Context `{Integrator}.

Definition setRawData (items : list (CommonSearchModel Content)) : M unit :=
  fun w => (tt, {| rawData := items; synonymsList := synonymsList w;
                   lastCacheUpdate := lastCacheUpdate w; trace := trace w |}).

Definition setLastCacheUpdate (u : LastCacheUpdate) : M unit :=
  fun w => (tt, {| rawData := rawData w; synonymsList := synonymsList w;
                   lastCacheUpdate := Some u; trace := trace w |}).

Definition log (e : Event) : M unit :=
  fun w => (tt, {| rawData := rawData w; synonymsList := synonymsList w;
                   lastCacheUpdate := lastCacheUpdate w;
                   trace := trace w ++ [e] |}).

Definition getRawData : M (list (CommonSearchModel Content)) :=
  fun w => (rawData w, w).

(** *** [setUpData]

    [data.forEach(child => { if (child.children) { push; recurse } })];
    [setUpChild] is the body of the [forEach] callback acting on
    [this.rawData]. *)
Fixpoint setUpChild (tag : option AEMTypes) (cache : list (CommonSearchModel Content))
         (child : RawServerData Jcr) : list (CommonSearchModel Content) :=
  match child with
  | RawNode _ (Some kids) =>
      fold_left (setUpChild tag) kids (cache ++ [getRawDataElement child tag])
  | RawNode _ None => cache
  end.

Definition setUpData (data : option (list (RawServerData Jcr)))
           (tag : option AEMTypes) : M unit :=
  match data with
  | None => ret tt
  | Some nodes =>
      cache <- getRawData ;;
      setRawData (fold_left (setUpChild tag) nodes cache)
  end.

Fixpoint forEach {A : Type} (f : A -> M unit) (arr : list A) : M unit :=
  match arr with
  | [] => ret tt
  | x :: rest => f x ;;; forEach f rest
  end.

(** *** [getServerData] *)

(** [data && data.pathList && data.pathList.length > 0] *)
Definition isValidResponse (data : option (ServerData Jcr)) : bool :=
  match data with
  | Some d => match pathList d with
              | Some (_ :: _) => true
              | _ => false
              end
  | None => false
  end.

Definition pathListOf (data : option (ServerData Jcr))
  : list (option (list (RawServerData Jcr))) :=
  match data with
  | Some d => match pathList d with Some entries => entries | None => [] end
  | None => []
  end.

(** [Array.isArray(urls) ? urls : [...urls]] *)
Definition searchUrlsOf (urls : SearchUrls) : list string :=
  match urls with
  | ManyUrls l => l
  | OneUrl s => Js.spread s
  end.

(** The [for (let urlIndex in searchUrls)] loop.  [data] and
    [isValidResponse] are declared outside the loop and survive an
    iteration whose [try] block throws. *)
Fixpoint fetchLoop (fetch : nat -> string -> FetchOutcome Jcr) (urlIndex : nat)
         (searchUrls : list string) (data : option (ServerData Jcr))
         (isValid : bool) : M (bool * option (ServerData Jcr)) :=
  match searchUrls with
  | [] => ret (isValid, data)
  | url :: rest =>
      log (StartFetching urlIndex url) ;;;
      let data := match fetch urlIndex url with
                  | Parsed parsed => parsed
                  | Throws => data
                  end in
      let isValid := isValidResponse data in
      if isValid then ret (isValid, data)
      else fetchLoop fetch (S urlIndex) rest data isValid
  end.

(** [fetch urlIndex url] is the outcome of the request of the loop's
    iteration [urlIndex]; [now] is [new Date().toISOString()] when the
    outcome is recorded.  [this.rawData] is always an array here, so
    [!serverDataRequestConfig || !this.rawData] is [!serverDataRequestConfig]. *)
Definition getServerData (fetch : nat -> string -> FetchOutcome Jcr) (now : string)
           (serverDataRequestConfig : option ServerDataRequestConfig) : M unit :=
  let urls := getSearchUrl serverDataRequestConfig in
  let searchUrls := searchUrlsOf urls in
  fetched <- fetchLoop fetch 0 searchUrls None false ;;
  let (isValid, data) := fetched in
  if isValid then
    match serverDataRequestConfig with
    | None => setRawData []
    | Some _ => ret tt
    end ;;;
    forEach (fun startChild =>
               setUpData startChild (option_map requestType serverDataRequestConfig))
            (pathListOf data) ;;;
    setLastCacheUpdate {| time := now; status := Success |}
  else
    setLastCacheUpdate {| time := now; status := Error |}.

(** *** [triggerGetServerData]

    A post-refresh callback either returns or throws, in both cases after
    whatever it did to the service. *)
Inductive Completion : Type :=
| Returned (w : World)
| Threw (w : World).

Definition Callback : Type := World -> Completion.

(** [for (const fn of this.serverDataCallBacks) { await fn(); }] *)
Fixpoint runCallBacks (index : nat) (fns : list Callback) (w : World) : Completion :=
  match fns with
  | [] => Returned w
  | fn :: rest =>
      match fn (snd (log (CallbackInvoked index) w)) with
      | Returned w' => runCallBacks (S index) rest w'
      | Threw w' => Threw w'
      end
  end.

(** One [try] block around the fetch and the whole callback loop; the
    [catch] writes to [console.error].  The fetch itself does not throw
    here: its requests are guarded by the [try] inside the loop. *)
Definition triggerGetServerData (fetch : nat -> string -> FetchOutcome Jcr)
           (now : string) (serverDataCallBacks : list Callback) : M unit :=
  fun w =>
    match runCallBacks 0 serverDataCallBacks (snd (getServerData fetch now None w)) with
    | Returned w' => (tt, w')
    | Threw w' => log ErrorLogged w'
    end.

(** *** [getSynonyms] *)
Definition synonymsStep (search : string) (synonyms : list string)
           (group : list string) : list string :=
  let isSynonym := (Js.indexOf group search >? -1)%Z in
  if isSynonym then Js.fromSet (synonyms ++ group) else synonyms.

Definition getSynonyms (search : string) : M (list string) :=
  fun w => (fold_left (synonymsStep search) (synonymsList w) [Js.toLowerCase search], w).

(** *** [matchKeywordToSynonym] *)

(** [searchElement || ''] *)
Definition orEmpty (searchElement : SearchElement) : string :=
  match searchElement with
  | Str s => s
  | _ => EmptyString
  end.

Fixpoint matchKeywordToSynonym (syn : string) (element : SearchElement)
         (isFullMatch : bool) : bool :=
  match element with
  | Arr elements =>
      (0 <? List.length (filter (fun el => matchKeywordToSynonym syn el isFullMatch) elements))%nat
  | _ =>
      if isFullMatch
      then Js.arrayIncludes (Js.split (Js.toLowerCase (orEmpty element))) (Js.toLowerCase syn)
      else Js.includes (Js.toLowerCase (orEmpty element)) (Js.toLowerCase syn)
  end.

(** *** [isKeyWordFoundInSynonym] *)

(** [!searchModel.searchElement] *)
Definition isFalsy (element : SearchElement) : bool :=
  match element with
  | Undefined => true
  | Str s => negb (Js.truthy s)
  | Arr _ => false
  end.

(** The body of the [for (const synonym of searchWithSynonyms)] loop: the
    pair of [found] and the [isSynonym] it assigns. *)
Definition compareSynonym (searchModel : SearchRankModel) (syn searchWord : string)
           (partialMatch : bool) : bool * bool :=
  let isSynonym := negb (String.eqb syn searchWord) && negb (fullMatch searchModel) in
  let isFullMatch := if partialMatch then false
                     else if isSynonym then isSynonym else fullMatch searchModel in
  let isFound :=
    match searchElement searchModel with
    | Arr elements =>
        (Js.findIndex (fun el => matchKeywordToSynonym syn el isFullMatch) elements >? -1)%Z
    | element => matchKeywordToSynonym syn element isFullMatch
    end in
  (isFound, isSynonym).

Fixpoint synonymLoop (searchModel : SearchRankModel) (searchWithSynonyms : list string)
         (searchWord : string) (partialMatch : bool) (isSynonym : bool) : KeywordFound :=
  match searchWithSynonyms with
  | [] => {| found := false; synonym := isSynonym |}
  | syn :: rest =>
      let (isFound, isSynonym) := compareSynonym searchModel syn searchWord partialMatch in
      if isFound then {| found := true; synonym := isSynonym |}
      else synonymLoop searchModel rest searchWord partialMatch isSynonym
  end.

Definition isKeyWordFoundInSynonym (searchModel : SearchRankModel)
           (searchWithSynonyms : list string) (searchWord : string)
           (partialMatch : bool) : KeywordFound :=
  if isFalsy (searchElement searchModel)
  then {| found := false; synonym := false |}
  else synonymLoop searchModel searchWithSynonyms searchWord partialMatch false.

(** *** [getSearchRank] *)
Definition setSearchRank (searchModel : CommonSearchModel Content) (r : option Z)
  : CommonSearchModel Content :=
  {| content := content searchModel; type := type searchModel; searchRank := r |}.

(** The [criteria.forEach] callback acting on [searchModel]. *)
Definition addRank (searchWithSynonyms : list string) (searchWord : string)
           (partialMatch : bool) (searchModel : CommonSearchModel Content)
           (el : SearchRankModel) : CommonSearchModel Content :=
  let keyWord := isKeyWordFoundInSynonym el searchWithSynonyms searchWord partialMatch in
  if found keyWord then
    let elRank := if synonym keyWord then synonymRank el else rank el in
    setSearchRank searchModel
                  (option_map (fun r => Js.addNumber r elRank) (searchRank searchModel))
  else searchModel.

Definition getSearchRank (searchModel : CommonSearchModel Content)
           (searchWithSynonyms : list string) (searchWord : string)
           (partialMatch : bool) : CommonSearchModel Content :=
  let criteria := match getSearchCriteria searchModel with
                  | Some c => c
                  | None => []
                  end in
  fold_left (addRank searchWithSynonyms searchWord partialMatch) criteria
            (setSearchRank searchModel (Some 0%Z)).

(** *** [searchForSingleWord] *)

(** [searchElement.searchRank > 0] *)
Definition hasPositiveRank (searchModel : CommonSearchModel Content) : bool :=
  match searchRank searchModel with
  | Some r => (0 <? r)%Z
  | None => false
  end.

(** The key of the comparator [(a, b) => b.searchRank - a.searchRank]. *)
Definition rankOf (searchModel : CommonSearchModel Content) : Z :=
  match searchRank searchModel with
  | Some r => r
  | None => 0%Z
  end.

Definition searchForSingleWord (word : string) (partialMatchesForSecondSearch : bool)
  : M (SearchResultModel Content) :=
  log (SearchPass word partialMatchesForSecondSearch) ;;;
  synonyms <- getSynonyms word ;;
  hits <- (if Js.truthy word then
              cache <- getRawData ;;
              let scored :=
                map (fun searchElement =>
                       getSearchRank searchElement synonyms word
                                     partialMatchesForSecondSearch) cache in
              setRawData scored ;;;
              ret (Js.sortDesc rankOf (filter hasPositiveRank scored))
            else getRawData) ;;
  ret {| search := Js.toString synonyms; foundItems := List.length hits; results := hits |}.

(** *** [getSearchResult] *)

(** [for (const _search of secondSearchTerm)] with its early [return]. *)
Fixpoint secondLevelSearch (secondSearchTerm : list string)
  : M (option (SearchResultModel Content)) :=
  match secondSearchTerm with
  | [] => ret None
  | _search :: rest =>
      second <- searchForSingleWord _search false ;;
      if (0 <? foundItems second)%nat then ret (Some second)
      else secondLevelSearch rest
  end.

Definition notDefined : SearchResultModel Content :=
  {| search := "not-definied"; foundItems := 0; results := [] |}.

Definition getSearchResult (query : option string) : M (SearchResultModel Content) :=
  match query with
  | None => ret notDefined
  | Some raw =>
      if negb (Js.truthy raw) then ret notDefined
      else
        let word := Js.toLowerCase (Js.trim raw) in
        let hasMultipleWords := (1 <? List.length (Js.split word))%nat in
        firstLevelSearch <- searchForSingleWord word false ;;
        returned <- (if (foundItems firstLevelSearch =? 0)%nat && hasMultipleWords
                     then secondLevelSearch (Js.sortDesc Js.strLength (Js.split word))
                     else ret None) ;;
        match returned with
        | Some secondLevel => ret secondLevel
        | None =>
            if (List.length (results firstLevelSearch) =? 0)%nat
            then searchForSingleWord word true
            else ret firstLevelSearch
        end
  end.

End Service.

(** ** The synonym table and the API beside the search *)

(** *** [getDefaultSynonyms]

    [rawText] is the content of [lib/synonyms.txt] as [readFileSync] returns
    it. *)
Definition parseSynonym (synonym : string) : string :=
  Js.toLowerCase (Js.trim (Js.replaceFirst "  " " " (Js.removeGroup synonym))).

(** [el !== '' && el !== ' '] *)
Definition keepSynonym (el : string) : bool :=
  negb (String.eqb el "") && negb (String.eqb el " ").

Definition getDefaultSynonyms (rawText : string) : list (list string) :=
  map (fun line => filter keepSynonym (map parseSynonym (Js.splitOn ";"%char line)))
      (Js.splitOn "010"%char rawText).

(** [Status] is a string enum. *)
Definition statusText (s : Status) : string :=
  match s with
  | Success => "Success"
  | Error => "Error"
  end.

(** What a route handler does with the response: it sends a body or it
    throws before sending. *)
Inductive Reply : Type :=
| Sent (body : string)
| HandlerThrows.

Section Endpoints.
Context `{Integrator}.

(** [this.synonymsList = this.getDefaultSynonyms()] of [setUp]. *)
Definition loadSynonyms (rawText : string) : M unit :=
  fun w => (tt, {| rawData := rawData w; synonymsList := getDefaultSynonyms rawText;
                   lastCacheUpdate := lastCacheUpdate w; trace := trace w |}).

(** *** [getSynonymsOfWord] *)

(** The callback of [this.synonymsList.filter]: what [synonymList.find]
    returns, as a condition. *)
Definition mentions (word : string) (synonymList : list string) : bool :=
  match find (fun synonym => String.eqb (Js.toLowerCase synonym) (Js.toLowerCase word))
             synonymList with
  | Some synonym => Js.truthy synonym
  | None => false
  end.

Definition getSynonymsOfWord (searchWord : string)
  : M (list (string * list (list string))) :=
  fun w =>
    (fold_left (fun results word =>
                  Js.assign word (filter (mentions word) (synonymsList w)) results)
               (Js.splitOn ","%char searchWord) [],
     w).

(** *** The route [/lastCacheUpdate] of [setUpDefaultAPI]

    [this.lastCacheUpdate] is undefined until a refresh has completed, and
    reading [.time] of it throws. *)
Definition lastCacheUpdateRoute (enableCacheTrigger : bool) : M Reply :=
  fun w =>
    (if enableCacheTrigger then
       match lastCacheUpdate w with
       | Some update =>
           Sent ("Last cache update at: " ++ time update
                 ++ " - Status: " ++ statusText (status update))%string
       | None => HandlerThrows
       end
     else Sent "Manual cache update disabled",
     w).

End Endpoints.

(** ** Vocabulary of the specification

    The definitions of this part follow the words of the specification; the
    theorems below compare them with the methods above. *)

Section Vocabulary.
Context `{Integrator}.

(** *** Flattening (specification 4.2) *)

(** Pre-order traversal along the [children] relation. *)
Fixpoint preorder (node : RawServerData Jcr) : list (RawServerData Jcr) :=
  node :: match node with
          | RawNode _ (Some kids) => flat_map preorder kids
          | RawNode _ None => []
          end.

(** "It has at least one child". *)
Definition hasAtLeastOneChild (node : RawServerData Jcr) : bool :=
  match children node with
  | Some (_ :: _) => true
  | _ => false
  end.

(** The [children] relation is there at all, however many children. *)
Definition hasChildrenRelation (node : RawServerData Jcr) : bool :=
  match children node with
  | Some _ => true
  | None => false
  end.

(** The records contributed by the nodes of a forest that qualify, in
    pre-order. *)
Definition contributed (qualifies : RawServerData Jcr -> bool)
           (tag : option AEMTypes) (forest : list (RawServerData Jcr))
  : list (CommonSearchModel Content) :=
  map (fun node => getRawDataElement node tag)
      (filter qualifies (flat_map preorder forest)).

(** The flattening of a [pathList]. *)
Definition flatten (tag : option AEMTypes)
           (entries : list (option (list (RawServerData Jcr))))
  : list (CommonSearchModel Content) :=
  flat_map (fun entry => match entry with
                         | Some forest => contributed hasChildrenRelation tag forest
                         | None => []
                         end) entries.

(** *** Fetching (specification 4.3) *)

(** A mirror fails: the request throws or its response is invalid. *)
Definition mirrorFails (outcome : FetchOutcome Jcr) : bool :=
  match outcome with
  | Throws => true
  | Parsed data => negb (isValidResponse data)
  end.

(** The requests for [urls], numbered from [from], in order. *)
Fixpoint requests (from : nat) (urls : list string) : list Event :=
  match urls with
  | [] => []
  | url :: rest => StartFetching from url :: requests (S from) rest
  end.

(** *** Matching (specification 4.4, step 3) *)

Inductive MatchMode : Type := Substring | WholeWord.

(** The mode of one comparison. *)
Definition comparisonMode (relaxToSubstring fieldMandatesWholeWord synonymHit : bool)
  : MatchMode :=
  if relaxToSubstring then Substring
  else if fieldMandatesWholeWord || synonymHit then WholeWord
  else Substring.

(** A string value matches a synonym in a mode. *)
Definition valueMatches (mode : MatchMode) (value syn : string) : bool :=
  match mode with
  | Substring => Js.includes (Js.toLowerCase value) (Js.toLowerCase syn)
  | WholeWord =>
      existsb (String.eqb (Js.toLowerCase syn)) (Js.split (Js.toLowerCase value))
  end.

Definition isWholeWord (mode : MatchMode) : bool :=
  match mode with WholeWord => true | Substring => false end.

(** A synonym hit: the synonym differs from the query word and the field
    does not mandate whole words. *)
Definition synonymHit (searchModel : SearchRankModel) (syn searchWord : string) : bool :=
  negb (String.eqb syn searchWord) && negb (fullMatch searchModel).

(** *** Scoring (specification 4.4, step 3) *)

Inductive Hit : Type := NoHit | LiteralHit | SynonymHit.

Definition fieldHit (searchWithSynonyms : list string) (searchWord : string)
           (partialMatch : bool) (el : SearchRankModel) : Hit :=
  let keyWord := isKeyWordFoundInSynonym el searchWithSynonyms searchWord partialMatch in
  if found keyWord then (if synonym keyWord then SynonymHit else LiteralHit)
  else NoHit.

(** What one ranked field makes of the rank [a]. *)
Definition addHit (searchWithSynonyms : list string) (searchWord : string)
           (partialMatch : bool) (a : Z) (el : SearchRankModel) : Z :=
  match fieldHit searchWithSynonyms searchWord partialMatch el with
  | NoHit => a
  | LiteralHit => Js.addNumber a (rank el)
  | SynonymHit => Js.addNumber a (synonymRank el)
  end.

Definition sumZ (l : list Z) : Z := fold_right Z.add 0%Z l.

Definition criteriaOf (searchModel : CommonSearchModel Content) : list SearchRankModel :=
  match getSearchCriteria searchModel with
  | Some c => c
  | None => []
  end.

(** *** Tiers (specification 4.4, step 2) *)

(** The query after normalisation. *)
Definition normalize (raw : string) : string := Js.toLowerCase (Js.trim raw).

(** The tokens of Tier 2 in the order in which they are tried. *)
Definition secondSearchTerm (word : string) : list string :=
  Js.sortDesc Js.strLength (Js.split word).

(** Every token of [tokens], scored one after the other from [w], yields
    zero matches; the result is the service after the last pass. *)
Fixpoint allMiss (tokens : list string) (w : World) : option World :=
  match tokens with
  | [] => Some w
  | token :: rest =>
      let (second, w') := searchForSingleWord token false w in
      if (foundItems second =? 0)%nat then allMiss rest w' else None
  end.

Definition passes (tokens : list string) : list Event :=
  map (fun token => SearchPass token false) tokens.

(** Descending length. *)
Definition longerOrEqual (a b : string) : Prop :=
  (String.length b <= String.length a)%nat.

(** Descending rank. *)
Definition rankedAbove (a b : CommonSearchModel Content) : Prop :=
  (rankOf b <= rankOf a)%Z.

(** The rank a scoring pass leaves on a record that is not a match. *)
Definition notPositive (searchModel : CommonSearchModel Content) : Prop :=
  exists r, searchRank searchModel = Some r /\ (r <= 0)%Z.

End Vocabulary.

Section Observations.
Context `{Integrator}.

(** The first mirror of [urls] with a valid response: how many mirrors
    come before it, and what it answered. *)
Fixpoint firstValid (fetch : nat -> string -> FetchOutcome Jcr) (urlIndex : nat)
         (urls : list string) : option (nat * option (ServerData Jcr)) :=
  match urls with
  | [] => None
  | url :: rest =>
      if mirrorFails (fetch urlIndex url)
      then match firstValid fetch (S urlIndex) rest with
           | Some (before, data) => Some (S before, data)
           | None => None
           end
      else match fetch urlIndex url with
           | Parsed data => Some (O, data)
           | Throws => None
           end
  end.

(** A record without its rank. *)
Definition unranked (searchModel : CommonSearchModel Content)
  : Content * option AEMTypes :=
  (content searchModel, type searchModel).

(** [getSearchCriteria] does not read the rank of the record. *)
Definition criteriaIgnoreRank : Prop :=
  forall (searchModel : CommonSearchModel Content) (r : option Z),
    getSearchCriteria (setSearchRank searchModel r) = getSearchCriteria searchModel.

(** Every weight of the record's criteria is positive. *)
Definition positiveWeights (searchModel : CommonSearchModel Content) : Prop :=
  Forall (fun el => (0 < rank el)%Z /\ (0 < synonymRank el)%Z) (criteriaOf searchModel).

(** A ranked field matches. *)
Definition fieldFound (searchWithSynonyms : list string) (searchWord : string)
           (partialMatch : bool) (el : SearchRankModel) : bool :=
  found (isKeyWordFoundInSynonym el searchWithSynonyms searchWord partialMatch).

(** The number of nodes of a forest whose [children] is present. *)
Definition containers (forest : list (RawServerData Jcr)) : nat :=
  List.length (filter hasChildrenRelation (flat_map preorder forest)).

End Observations.

(** *** Scoring in the words of the specification

    Matching and the kind of a hit, from the modes and the synonym hit of
    the specification; none of the definitions of this part refers to the
    matcher of the service. *)

(** A value matches a synonym: a string by the mode, a missing element like
    the empty string, an array when one of its elements matches. *)
Fixpoint elementMatches (mode : MatchMode) (syn : string) (element : SearchElement)
  : bool :=
  match element with
  | Str value => valueMatches mode value syn
  | Undefined => valueMatches mode "" syn
  | Arr elements => existsb (elementMatches mode syn) elements
  end.

(** The field has a value to compare: it is neither missing nor the empty
    string. *)
Definition hasValue (value : SearchElement) : bool :=
  match value with
  | Undefined => false
  | Str s => negb (String.eqb s "")
  | Arr _ => true
  end.

(** A synonym of the set matches the value of the field, in the mode of
    that comparison. *)
Definition synonymMatches (field : SearchRankModel) (searchWord : string)
           (relaxToSubstring : bool) (syn : string) : bool :=
  elementMatches (comparisonMode relaxToSubstring (fullMatch field)
                                 (synonymHit field syn searchWord))
                 syn (searchElement field).

(** The synonym that decides the hit: the first of the set that matches. *)
Definition matchingSynonym (field : SearchRankModel) (synonyms : list string)
           (searchWord : string) (relaxToSubstring : bool) : option string :=
  if hasValue (searchElement field)
  then find (synonymMatches field searchWord relaxToSubstring) synonyms
  else None.

Definition hitOf (synonyms : list string) (searchWord : string)
           (relaxToSubstring : bool) (field : SearchRankModel) : Hit :=
  match matchingSynonym field synonyms searchWord relaxToSubstring with
  | None => NoHit
  | Some syn => if synonymHit field syn searchWord then SynonymHit else LiteralHit
  end.

(** The weights of the fields that match, in the order of the criteria: the
    base weight of a field hit literally, the synonym weight of a field hit
    through a synonym. *)
Definition hitWeights (synonyms : list string) (searchWord : string)
           (relaxToSubstring : bool) (criteria : list SearchRankModel) : list Z :=
  flat_map (fun field => match hitOf synonyms searchWord relaxToSubstring field with
                         | NoHit => []
                         | LiteralHit => [rank field]
                         | SynonymHit => [synonymRank field]
                         end) criteria.

(** The weights are safe integers and so is every running sum of them, from
    [acc] on: the additions of the numbers are exact. *)
Fixpoint safeFrom (acc : Z) (weights : list Z) : bool :=
  match weights with
  | [] => true
  | x :: rest =>
      (Z.abs x <=? 2 ^ 53)%Z && (Z.abs (acc + x) <=? 2 ^ 53)%Z
      && safeFrom (acc + x)%Z rest
  end.

Definition exactSums (weights : list Z) : Prop := safeFrom 0 weights = true.

(** The running sum as the numbers of JavaScript add it up. *)
Definition numberSum (weights : list Z) : Z := fold_left Js.addNumber weights 0%Z.

(** ** A concrete integrator

    A page search in the style of the README: three mirrors, pages with a
    name and a description, the name weighted 3 (synonym 1) and the
    description 2 (synonym 1). *)

Module Demo.

Record PageModel : Type := {
  name : string;
  description : string
}.

Definition page (n d : string) : PageModel := {| name := n; description := d |}.

Definition mirrors : list string :=
  ["http://m1/p.json"; "http://m2/p.json"; "http://m3/p.json"].

#[export] Instance service : Integrator := {|
  Jcr := PageModel;
  Content := PageModel;
  getSearchUrl := fun _ => ManyUrls mirrors;
  getSearchCriteria := fun searchModel =>
    Some [ {| searchElement := Str (name (content searchModel));
              fullMatch := false; rank := 3; synonymRank := 1 |};
           {| searchElement := Str (description (content searchModel));
              fullMatch := false; rank := 2; synonymRank := 1 |} ];
  getRawDataElement := fun child tag =>
    match child with
    | RawNode jcr _ => {| content := jcr; type := tag; searchRank := None |}
    end
|}.

Definition record (n d : string) (r : option Z) : CommonSearchModel PageModel :=
  {| content := page n d; type := None; searchRank := r |}.

(** A freshly loaded cache and the synonym group [car; auto]. *)
Definition fresh : World := {|
  rawData := [ record "Autoversicherung" "auto insurance" None;
               record "Haus" "car park" None;
               record "Boot" "ship" None ];
  synonymsList := [["car"; "auto"]];
  lastCacheUpdate := None;
  trace := []
|}.

(** The service after the query ["auto"] was answered. *)
Definition used : World := snd (getSearchResult (Some "auto") fresh).

(** A remote tree: a container with a container, a node whose [children]
    is the empty array, and a node without [children]. *)
Definition leaf : RawServerData PageModel := RawNode (page "leaf" "") None.
Definition hollow : RawServerData PageModel := RawNode (page "hollow" "") (Some []).
Definition inner : RawServerData PageModel := RawNode (page "inner" "") (Some [leaf]).
Definition root : RawServerData PageModel :=
  RawNode (page "root" "") (Some [inner; hollow; leaf]).

Definition body : ServerData PageModel := {| pathList := Some [Some [root]] |}.

(** Two mirrors with network errors, the third valid. *)
Definition thirdAnswers (urlIndex : nat) (url : string) : FetchOutcome PageModel :=
  match urlIndex with
  | 2 => Parsed (Some body)
  | _ => Throws
  end.

(** A network error, an empty body and an empty [pathList]. *)
Definition allFail (urlIndex : nat) (url : string) : FetchOutcome PageModel :=
  match urlIndex with
  | 0 => Throws
  | 1 => Parsed (Some {| pathList := None |})
  | _ => Parsed (Some {| pathList := Some [] |})
  end.

Definition assetRequest : ServerDataRequestConfig :=
  {| path := "/content/dam"; requestType := Asset |}.

(** Post-refresh callbacks: one that returns and one that throws. *)
Definition quiet : Callback := fun w => Returned w.
Definition failing : Callback := fun w => Threw w.

End Demo.

(** A synonym file, and a page search whose single mirror is given as a
    string. *)
Module Sample.

Definition synonymsTxt : string :=
  "Auto;PKW (ugs.);  fahrbarer  Untersatz " ++ String "010"%char
  "Haus; ;Heim (geh.)" ++ String "010"%char "".

(** A page search whose name weighs [2 ^ 53] and whose description weighs
    1. *)
Definition heavy : Integrator := {|
  Jcr := Demo.PageModel;
  Content := Demo.PageModel;
  getSearchUrl := fun _ => ManyUrls Demo.mirrors;
  getSearchCriteria := fun searchModel =>
    Some [ {| searchElement := Str (Demo.name (content searchModel));
              fullMatch := false; rank := 2 ^ 53; synonymRank := 1 |};
           {| searchElement := Str (Demo.description (content searchModel));
              fullMatch := false; rank := 1; synonymRank := 1 |} ];
  getRawDataElement := @getRawDataElement Demo.service
|}.

Definition oneMirror : Integrator := {|
  Jcr := Demo.PageModel;
  Content := Demo.PageModel;
  getSearchUrl := fun _ => OneUrl "http://m1/p.json";
  getSearchCriteria := @getSearchCriteria Demo.service;
  getRawDataElement := @getRawDataElement Demo.service
|}.

Definition idle : @World oneMirror := {|
  rawData := [];
  synonymsList := [];
  lastCacheUpdate := None;
  trace := []
|}.

(** The page search after the query [car] was answered: the ranks it
    left are 1, 2 and 0. *)
Definition ranked : @World Demo.service :=
  snd (getSearchResult (H := Demo.service) (Some "car") Demo.fresh).

End Sample.
Example toLowerCase_ex : Js.toLowerCase "AuTo Haus" = "auto haus".
Proof. reflexivity. Qed.

Example trim_ex : Js.trim "  imprint  page " = "imprint  page".
Proof. reflexivity. Qed.

Example split_ex : Js.split "a  bc" = ["a"; ""; "bc"].
Proof. reflexivity. Qed.

Example includes_ex :
  Js.includes "autoversicherung" "auto" = true /\ Js.includes "haus" "auto" = false.
Proof. split; reflexivity. Qed.

Example fromSet_ex : Js.fromSet ["auto"; "car"; "auto"; "pkw"; "car"] = ["auto"; "car"; "pkw"].
Proof. reflexivity. Qed.

Example toString_ex : Js.toString ["auto"; "car"] = "auto,car".
Proof. reflexivity. Qed.

Example sortDesc_ex :
  Js.sortDesc (fun s => Z.of_nat (String.length s)) ["ab"; "abcd"; "x"; "cd"; ""; "y"]
  = ["abcd"; "ab"; "cd"; "x"; "y"; ""].
Proof. reflexivity. Qed.

(** ** Facts about the primitives *)

Section JsFacts.

Lemma findIndexFrom_found {A : Type} (p : A -> bool) (arr : list A) :
  forall i, (0 <= i)%Z -> (Js.findIndexFrom i p arr >? -1)%Z = existsb p arr.
Proof.
  induction arr as [|y arr IH]; intros i Hi; simpl.
  - reflexivity.
  - destruct (p y); simpl.
    + apply Z.gtb_lt. lia.
    + apply IH. lia.
Qed.

Lemma findIndex_found {A : Type} (p : A -> bool) (arr : list A) :
  (Js.findIndex p arr >? -1)%Z = existsb p arr.
Proof. apply findIndexFrom_found. lia. Qed.

Lemma indexOfFrom_found (arr : list string) (x : string) :
  forall i, (0 <= i)%Z ->
            (Js.indexOfFrom i arr x >? -1)%Z = existsb (fun y => String.eqb y x) arr.
Proof.
  induction arr as [|y arr IH]; intros i Hi; simpl.
  - reflexivity.
  - destruct (String.eqb y x); simpl.
    + apply Z.gtb_lt. lia.
    + apply IH. lia.
Qed.

Lemma indexOf_found (arr : list string) (x : string) :
  (Js.indexOf arr x >? -1)%Z = existsb (fun y => String.eqb y x) arr.
Proof. apply indexOfFrom_found. lia. Qed.

Lemma indexOf_In (arr : list string) (x : string) :
  (Js.indexOf arr x >? -1)%Z = true <-> In x arr.
Proof.
  rewrite indexOf_found, existsb_exists. split.
  - intros [y [Hin Heq]]. apply String.eqb_eq in Heq. now subst.
  - intros Hin. exists x. split; [assumption | apply String.eqb_refl].
Qed.

Lemma filter_length_positive {A : Type} (p : A -> bool) (arr : list A) :
  (0 <? List.length (filter p arr))%nat = existsb p arr.
Proof.
  induction arr as [|y arr IH]; simpl.
  - reflexivity.
  - destruct (p y); simpl; [reflexivity | exact IH].
Qed.

Lemma arrayIncludes_In (arr : list string) (x : string) :
  Js.arrayIncludes arr x = true <-> In x arr.
Proof.
  unfold Js.arrayIncludes. rewrite existsb_exists. split.
  - intros [y [Hin Heq]]. apply String.eqb_eq in Heq. now subst.
  - intros Hin. exists x. split; [assumption | apply String.eqb_refl].
Qed.

(** [sortDesc] permutes its argument and orders it by descending key. *)
Lemma insertDesc_perm {A : Type} (key : A -> Z) (x : A) (sorted : list A) :
  Permutation (Js.insertDesc key x sorted) (x :: sorted).
Proof.
  induction sorted as [|y sorted IH]; simpl.
  - apply Permutation_refl.
  - destruct (key y <=? key x)%Z.
    + apply Permutation_refl.
    + eapply perm_trans; [apply perm_skip, IH | apply perm_swap].
Qed.

Lemma sortDesc_perm {A : Type} (key : A -> Z) (arr : list A) :
  Permutation (Js.sortDesc key arr) arr.
Proof.
  induction arr as [|x arr IH]; simpl.
  - apply perm_nil.
  - eapply perm_trans; [apply insertDesc_perm | apply perm_skip, IH].
Qed.

Lemma insertDesc_sorted {A : Type} (key : A -> Z) (x : A) (sorted : list A) :
  StronglySorted (fun a b => (key b <= key a)%Z) sorted ->
  StronglySorted (fun a b => (key b <= key a)%Z) (Js.insertDesc key x sorted).
Proof.
  induction 1 as [|y sorted Hs IH Hy]; simpl.
  - constructor; constructor.
  - destruct (key y <=? key x)%Z eqn:E.
    + apply Z.leb_le in E. constructor.
      * constructor; assumption.
      * constructor; [assumption |].
        eapply Forall_impl; [| exact Hy]. intros; simpl in *; lia.
    + apply Z.leb_gt in E. constructor; [exact IH |].
      eapply Permutation_Forall; [apply Permutation_sym, insertDesc_perm |].
      constructor; [lia | assumption].
Qed.

Lemma sortDesc_sorted {A : Type} (key : A -> Z) (arr : list A) :
  StronglySorted (fun a b => (key b <= key a)%Z) (Js.sortDesc key arr).
Proof.
  induction arr as [|x arr IH]; simpl.
  - constructor.
  - apply insertDesc_sorted, IH.
Qed.

Lemma StronglySorted_weaken {A : Type} (R S : A -> A -> Prop) (l : list A) :
  (forall a b, R a b -> S a b) -> StronglySorted R l -> StronglySorted S l.
Proof.
  intros HRS. induction 1 as [|x l Hs IH Hx]; constructor.
  - exact IH.
  - eapply Forall_impl; [| exact Hx]. intros b. apply HRS.
Qed.

Lemma sortDesc_length {A : Type} (key : A -> Z) (arr : list A) :
  List.length (Js.sortDesc key arr) = List.length arr.
Proof. apply Permutation_length, sortDesc_perm. Qed.

End JsFacts.

(** ** Matching and scoring *)

Section Matching.

Lemma isWholeWord_comparisonMode (partialMatch mandatesFullMatch hit : bool) :
  isWholeWord (comparisonMode partialMatch mandatesFullMatch hit)
  = (if partialMatch then false else if hit then hit else mandatesFullMatch).
Proof. destruct partialMatch, mandatesFullMatch, hit; reflexivity. Qed.

Lemma matchKeywordToSynonym_Str (syn s : string) (mode : MatchMode) :
  matchKeywordToSynonym syn (Str s) (isWholeWord mode) = valueMatches mode s syn.
Proof. destruct mode; reflexivity. Qed.

Lemma matchKeywordToSynonym_Arr (syn : string) (elements : list SearchElement)
      (isFullMatch : bool) :
  matchKeywordToSynonym syn (Arr elements) isFullMatch
  = existsb (fun el => matchKeywordToSynonym syn el isFullMatch) elements.
Proof. simpl. apply filter_length_positive. Qed.

Lemma synonymLoop_find (field : SearchRankModel) (searchWord : string)
      (partialMatch : bool) (searchWithSynonyms : list string) :
  forall flag,
    match find (fun s => fst (compareSynonym field s searchWord partialMatch))
               searchWithSynonyms with
    | Some s =>
        synonymLoop field searchWithSynonyms searchWord partialMatch flag
        = {| found := true; synonym := synonymHit field s searchWord |}
    | None =>
        found (synonymLoop field searchWithSynonyms searchWord partialMatch flag) = false
    end.
Proof.
  induction searchWithSynonyms as [|s rest IH]; intros flag.
  - reflexivity.
  - cbn [find synonymLoop].
    assert (Hflag : snd (compareSynonym field s searchWord partialMatch)
                    = synonymHit field s searchWord) by reflexivity.
    destruct (compareSynonym field s searchWord partialMatch) as [isFound isSynonym].
    cbn [fst snd] in *. subst isSynonym. destruct isFound.
    + reflexivity.
    + apply IH.
Qed.

(** C3. In one comparison the candidate is a synonym hit exactly when the
    synonym differs from the query word and the field does not mandate a
    full match; the mode is substring containment under the relaxation
    flag, otherwise whole-word matching when the field mandates it or the
    candidate is a synonym hit, and substring containment otherwise; an
    array-valued field matches when one of its elements does; the loop
    over the synonyms stops at the first synonym that matches and reports
    its classification. *)
Theorem isKeyWordFoundInSynonym_hit_and_mode :
  forall (value : SearchElement) (mandatesFullMatch : bool) (r sr : Z)
         (syn searchWord : string) (partialMatch : bool),
    let field := {| searchElement := value; fullMatch := mandatesFullMatch;
                    rank := r; synonymRank := sr |} in
    let hit := synonymHit field syn searchWord in
    let mode := comparisonMode partialMatch mandatesFullMatch hit in
    snd (compareSynonym field syn searchWord partialMatch) = hit
    /\ hit = (negb (String.eqb syn searchWord) && negb mandatesFullMatch)
    /\ mode = (if partialMatch then Substring
               else if mandatesFullMatch || hit then WholeWord else Substring)
    /\ fst (compareSynonym field syn searchWord partialMatch)
       = match value with
         | Str s => valueMatches mode s syn
         | Undefined => valueMatches mode "" syn
         | Arr elements =>
             existsb (fun el => matchKeywordToSynonym syn el (isWholeWord mode)) elements
         end
    /\ (forall s, matchKeywordToSynonym syn (Str s) (isWholeWord mode)
                  = valueMatches mode s syn)
    /\ (forall searchWithSynonyms,
           let keyWord := isKeyWordFoundInSynonym field searchWithSynonyms searchWord
                                                  partialMatch in
           if isFalsy value then keyWord = {| found := false; synonym := false |}
           else match find (fun s => fst (compareSynonym field s searchWord partialMatch))
                           searchWithSynonyms with
                | Some s => keyWord = {| found := true;
                                         synonym := synonymHit field s searchWord |}
                | None => found keyWord = false
                end).
Proof.
  intros value mandatesFullMatch r sr syn searchWord partialMatch field hit mode.
  split; [reflexivity |].
  split; [reflexivity |].
  split; [reflexivity |].
  split; [| split].
  - subst mode hit. unfold compareSynonym, synonymHit, comparisonMode.
    cbn [fst fullMatch searchElement].
    destruct partialMatch, mandatesFullMatch, (String.eqb syn searchWord);
      cbn [negb andb orb isWholeWord];
      destruct value as [| s | elements];
      try reflexivity; apply findIndex_found.
  - intros s. apply matchKeywordToSynonym_Str.
  - intros searchWithSynonyms keyWord. subst keyWord.
    unfold isKeyWordFoundInSynonym. cbn [searchElement field].
    destruct (isFalsy value); [reflexivity |].
    apply synonymLoop_find.
Qed.

End Matching.

Section Scoring.
Context `{Integrator}.

Lemma addRank_rank (searchWithSynonyms : list string) (searchWord : string)
      (partialMatch : bool) (searchModel : CommonSearchModel Content)
      (el : SearchRankModel) (a : Z) :
  searchRank searchModel = Some a ->
  searchRank (addRank searchWithSynonyms searchWord partialMatch searchModel el)
  = Some (addHit searchWithSynonyms searchWord partialMatch a el).
Proof.
  intros Ha. unfold addRank, addHit, fieldHit.
  destruct (found _); [destruct (synonym _) |]; simpl; rewrite Ha; reflexivity.
Qed.

Lemma fold_addRank_rank (searchWithSynonyms : list string) (searchWord : string)
      (partialMatch : bool) (criteria : list SearchRankModel) :
  forall (searchModel : CommonSearchModel Content) (a : Z),
    searchRank searchModel = Some a ->
    searchRank (fold_left (addRank searchWithSynonyms searchWord partialMatch)
                          criteria searchModel)
    = Some (fold_left (addHit searchWithSynonyms searchWord partialMatch) criteria a).
Proof.
  induction criteria as [|el criteria IH]; intros searchModel a Ha; simpl.
  - exact Ha.
  - apply IH. apply addRank_rank. exact Ha.
Qed.

Lemma getSearchRank_rank (searchModel : CommonSearchModel Content)
      (searchWithSynonyms : list string) (searchWord : string) (partialMatch : bool) :
  searchRank (getSearchRank searchModel searchWithSynonyms searchWord partialMatch)
  = Some (fold_left (addHit searchWithSynonyms searchWord partialMatch)
                    (criteriaOf searchModel) 0%Z).
Proof.
  unfold getSearchRank. fold (criteriaOf searchModel).
  apply fold_addRank_rank. reflexivity.
Qed.

Lemma addRank_content (searchWithSynonyms : list string) (searchWord : string)
      (partialMatch : bool) (searchModel : CommonSearchModel Content)
      (el : SearchRankModel) :
  content (addRank searchWithSynonyms searchWord partialMatch searchModel el)
  = content searchModel
  /\ type (addRank searchWithSynonyms searchWord partialMatch searchModel el)
     = type searchModel.
Proof. unfold addRank. destruct (found _); split; reflexivity. Qed.

Lemma fold_addRank_content (searchWithSynonyms : list string) (searchWord : string)
      (partialMatch : bool) (criteria : list SearchRankModel) :
  forall searchModel : CommonSearchModel Content,
    content (fold_left (addRank searchWithSynonyms searchWord partialMatch)
                       criteria searchModel) = content searchModel
    /\ type (fold_left (addRank searchWithSynonyms searchWord partialMatch)
                       criteria searchModel) = type searchModel.
Proof.
  induction criteria as [|el criteria IH]; intros searchModel; simpl.
  - split; reflexivity.
  - destruct (IH (addRank searchWithSynonyms searchWord partialMatch searchModel el))
      as [Hc Ht].
    destruct (addRank_content searchWithSynonyms searchWord partialMatch searchModel el)
      as [Hc' Ht'].
    split; congruence.
Qed.

Lemma getSearchRank_content (searchModel : CommonSearchModel Content)
      (searchWithSynonyms : list string) (searchWord : string) (partialMatch : bool) :
  content (getSearchRank searchModel searchWithSynonyms searchWord partialMatch)
  = content searchModel
  /\ type (getSearchRank searchModel searchWithSynonyms searchWord partialMatch)
     = type searchModel.
Proof.
  unfold getSearchRank.
  exact (fold_addRank_content searchWithSynonyms searchWord partialMatch _
                              (setSearchRank searchModel (Some 0%Z))).
Qed.

(** What one call of [searchForSingleWord] with a non-empty word does. *)
Lemma searchForSingleWord_scores (word : string) (partialMatch : bool) (w : World) :
  Js.truthy word = true ->
  let synonyms := fst (getSynonyms word w) in
  let scored := map (fun r => getSearchRank r synonyms word partialMatch) (rawData w) in
  let hits := Js.sortDesc rankOf (filter hasPositiveRank scored) in
  searchForSingleWord word partialMatch w
  = ({| search := Js.toString synonyms; foundItems := List.length hits; results := hits |},
     {| rawData := scored; synonymsList := synonymsList w;
        lastCacheUpdate := lastCacheUpdate w;
        trace := trace w ++ [SearchPass word partialMatch] |}).
Proof.
  intros Hword. unfold searchForSingleWord, bind, log, getSynonyms, getRawData,
                setRawData, ret.
  simpl. rewrite Hword. reflexivity.
Qed.

(** What it does with the empty word. *)
Lemma searchForSingleWord_empty (partialMatch : bool) (w : World) :
  searchForSingleWord "" partialMatch w
  = ({| search := Js.toString (fst (getSynonyms "" w));
        foundItems := List.length (rawData w); results := rawData w |},
     {| rawData := rawData w; synonymsList := synonymsList w;
        lastCacheUpdate := lastCacheUpdate w;
        trace := trace w ++ [SearchPass "" partialMatch] |}).
Proof. reflexivity. Qed.

Lemma hasPositiveRank_rankOf (searchModel : CommonSearchModel Content) :
  hasPositiveRank searchModel = true <->
  (exists r, searchRank searchModel = Some r /\ (0 < r)%Z).
Proof.
  unfold hasPositiveRank. destruct (searchRank searchModel) as [r|].
  - rewrite Z.ltb_lt. split; [eauto | intros [r' [[= <-] Hr]]; exact Hr].
  - split; [discriminate | intros [r [[=] _]]].
Qed.

End Scoring.

(** ** Tiered query resolution *)

Section Tiers.
Context `{Integrator}.

Lemma searchForSingleWord_trace (word : string) (partialMatch : bool) (w : World) :
  trace (snd (searchForSingleWord word partialMatch w))
  = trace w ++ [SearchPass word partialMatch].
Proof.
  destruct word as [|c word']; [reflexivity |].
  rewrite searchForSingleWord_scores by reflexivity. reflexivity.
Qed.

Lemma searchForSingleWord_synonymsList (word : string) (partialMatch : bool) (w : World) :
  synonymsList (snd (searchForSingleWord word partialMatch w)) = synonymsList w.
Proof.
  destruct word as [|c word']; [reflexivity |].
  rewrite searchForSingleWord_scores by reflexivity. reflexivity.
Qed.


Lemma allMiss_trace (tokens : list string) :
  forall w w', allMiss tokens w = Some w' -> trace w' = trace w ++ passes tokens.
Proof.
  induction tokens as [|token rest IH]; intros w w' Hmiss; simpl in Hmiss.
  - injection Hmiss as <-. simpl. now rewrite app_nil_r.
  - pose proof (searchForSingleWord_trace token false w) as Hc.
    destruct (searchForSingleWord token false w) as [second w1]. simpl in Hc.
    destruct (foundItems second =? 0)%nat; [| discriminate].
    rewrite (IH _ _ Hmiss), Hc. simpl. now rewrite <- app_assoc.
Qed.

(** The Tier-2 loop returns at the first token that has a match ... *)
Lemma secondLevelSearch_hit (pre : list string) (token : string) (post : list string) :
  forall w wpre,
    allMiss pre w = Some wpre ->
    (0 < foundItems (fst (searchForSingleWord token false wpre)))%nat ->
    secondLevelSearch (pre ++ token :: post) w
    = (Some (fst (searchForSingleWord token false wpre)),
       snd (searchForSingleWord token false wpre)).
Proof.
  induction pre as [|p pre IH]; intros w wpre Hmiss Hhit; simpl in Hmiss.
  - injection Hmiss as <-. simpl. unfold bind.
    destruct (searchForSingleWord token false w) as [second w1]. simpl in *.
    apply Nat.ltb_lt in Hhit. rewrite Hhit. reflexivity.
  - simpl. unfold bind.
    destruct (searchForSingleWord p false w) as [second w1].
    destruct (foundItems second =? 0)%nat eqn:E; [| discriminate].
    apply Nat.eqb_eq in E. rewrite E. simpl. now apply IH.
Qed.



Lemma truthy_normalize (raw : string) :
  Js.truthy (normalize raw) = true -> Js.truthy raw = true.
Proof. destruct raw; [discriminate | reflexivity]. Qed.

(** [getSearchResult] on a query that is not empty, by the outcome of the
    first pass and of the Tier-2 loop. *)
Lemma getSearchResult_unfold (raw : string) (w : World) :
  Js.truthy raw = true ->
  getSearchResult (Some raw) w
  = let word := normalize raw in
    let (first, w1) := searchForSingleWord word false w in
    let (returned, w2) :=
      (if (foundItems first =? 0)%nat && (1 <? List.length (Js.split word))%nat
       then secondLevelSearch (secondSearchTerm word) w1
       else (None, w1)) in
    match returned with
    | Some secondLevel => (secondLevel, w2)
    | None => if (List.length (results first) =? 0)%nat
              then searchForSingleWord word true w2
              else (first, w2)
    end.
Proof.
  intros Hraw. unfold getSearchResult. rewrite Hraw. cbn [negb].
  unfold bind, ret, normalize, secondSearchTerm.
  destruct (searchForSingleWord _ false w) as [first w1].
  destruct (_ && _).
  - destruct (secondLevelSearch _ w1) as [[secondLevel|] w2]; [reflexivity |].
    destruct (List.length (results first) =? 0)%nat; reflexivity.
  - destruct (List.length (results first) =? 0)%nat; reflexivity.
Qed.


End Tiers.

(** ** Queries without a word, and empty tokens *)

Section EmptyWords.
Context `{Integrator}.

(** Two adjacent spaces leave an empty piece behind the first piece. *)
Lemma split_double_space (s : string) :
  Js.includes s "  " = true -> In EmptyString (tl (Js.split s)).
Proof.
  induction s as [|c s IH]; intros Hinc.
  - discriminate.
  - cbn [Js.includes] in Hinc. apply orb_true_iff in Hinc.
    destruct Hinc as [Hpre | Hrest].
    + cbn [String.prefix] in Hpre.
      destruct (ascii_dec " " c) as [<- |]; [| discriminate].
      destruct s as [|c' s']; cbn [String.prefix] in Hpre; [discriminate |].
      destruct (ascii_dec " " c') as [<- |]; [| discriminate].
      simpl. left. reflexivity.
    + specialize (IH Hrest). cbn [Js.split].
      destruct (Ascii.eqb c " ").
      * simpl. destruct (Js.split s); [contradiction | now right].
      * destruct (Js.split s); [contradiction | exact IH].
Qed.

Lemma split_double_space_length (s : string) :
  Js.includes s "  " = true -> (1 <? List.length (Js.split s))%nat = true.
Proof.
  intros Hinc. apply split_double_space in Hinc.
  destruct (Js.split s) as [|p [|q l]]; try contradiction. reflexivity.
Qed.

Lemma not_truthy (s : string) : Js.truthy s = false -> s = EmptyString.
Proof. destruct s; [reflexivity | discriminate]. Qed.

(** In a list ordered by descending length the empty strings come last. *)
Lemma sorted_empty_last (l : list string) :
  StronglySorted longerOrEqual l ->
  exists k, l = filter Js.truthy l ++ repeat EmptyString k.
Proof.
  induction 1 as [|x l Hs [k IH] Hx].
  - exists 0. reflexivity.
  - destruct x as [|c x'].
    + exists (S (List.length l)). simpl.
      assert (Hall : Forall (fun s => s = EmptyString) l).
      { eapply Forall_impl; [| exact Hx]. intros s Hle.
        unfold longerOrEqual in Hle. simpl in Hle.
        destruct s; [reflexivity | simpl in Hle; lia]. }
      assert (Hnone : filter Js.truthy l = []).
      { clear - Hall. induction Hall as [|s l -> _ IH]; [reflexivity | exact IH]. }
      assert (Hrep : l = repeat EmptyString (List.length l)).
      { clear - Hall. induction Hall as [|s l -> _ IH]; [reflexivity |].
        simpl. f_equal. exact IH. }
      rewrite Hnone. simpl. f_equal. exact Hrep.
    + exists k. simpl. f_equal. exact IH.
Qed.

Lemma secondSearchTerm_empty_last (word : string) :
  Js.includes word "  " = true ->
  exists post,
    secondSearchTerm word
    = filter Js.truthy (secondSearchTerm word) ++ EmptyString :: post.
Proof.
  intros Hinc.
  assert (Hin : In EmptyString (secondSearchTerm word)).
  { eapply Permutation_in; [apply Permutation_sym, sortDesc_perm |].
    apply split_double_space in Hinc.
    destruct (Js.split word); [contradiction | now right]. }
  destruct (sorted_empty_last (secondSearchTerm word)) as [k Hk].
  { eapply StronglySorted_weaken; [| apply sortDesc_sorted].
    intros a b. unfold longerOrEqual, Js.strLength. lia. }
  destruct k as [|k].
  - exfalso. rewrite app_nil_r in Hk. rewrite Hk in Hin.
    apply filter_In in Hin. destruct Hin as [_ Hin]. discriminate.
  - exists (repeat EmptyString k). exact Hk.
Qed.

Lemma filter_nil_Forall {A : Type} (p : A -> bool) (l : list A) :
  filter p l = [] -> Forall (fun x => p x = false) l.
Proof.
  induction l as [|x l IH]; simpl; intros Hf; [constructor |].
  destruct (p x) eqn:E; [discriminate |]. constructor; auto.
Qed.

(** A scoring pass without a match leaves every record with a rank that
    is not positive, and changes nothing else. *)
Lemma miss_resets_ranks (word : string) (partialMatch : bool) (w : World) :
  Js.truthy word = true ->
  foundItems (fst (searchForSingleWord word partialMatch w)) = 0%nat ->
  let w' := snd (searchForSingleWord word partialMatch w) in
  map content (rawData w') = map content (rawData w)
  /\ Forall notPositive (rawData w')
  /\ synonymsList w' = synonymsList w.
Proof.
  intros Hword. rewrite (searchForSingleWord_scores word partialMatch w Hword).
  cbn [fst snd foundItems rawData synonymsList].
  rewrite sortDesc_length. intros Hzero.
  apply length_zero_iff_nil, filter_nil_Forall in Hzero.
  split; [| split; [| reflexivity]].
  - rewrite map_map. apply map_ext. intros r. apply getSearchRank_content.
  - apply Forall_map. apply Forall_map in Hzero.
    eapply Forall_impl; [| exact Hzero]. intros r Hr. cbv beta in Hr.
    unfold hasPositiveRank in Hr. unfold notPositive.
    rewrite getSearchRank_rank in *. eexists. split; [reflexivity |].
    apply Z.ltb_ge in Hr. exact Hr.
Qed.

Lemma allMiss_resets_ranks (tokens : list string) :
  forall (w0 w w' : World),
    Forall (fun t => Js.truthy t = true) tokens ->
    allMiss tokens w = Some w' ->
    map content (rawData w) = map content (rawData w0)
    /\ Forall notPositive (rawData w) /\ synonymsList w = synonymsList w0 ->
    map content (rawData w') = map content (rawData w0)
    /\ Forall notPositive (rawData w') /\ synonymsList w' = synonymsList w0.
Proof.
  induction tokens as [|token rest IH]; intros w0 w w' Htok Hmiss Hinv;
    simpl in Hmiss.
  - injection Hmiss as <-. exact Hinv.
  - inversion Htok as [|? ? Ht Hrest]; subst.
    pose proof (miss_resets_ranks token false w Ht) as Hpass.
    destruct (searchForSingleWord token false w) as [second w1].
    cbn [fst snd] in Hpass.
    destruct (foundItems second =? 0)%nat eqn:E; [| discriminate].
    apply Nat.eqb_eq in E. destruct (Hpass E) as (Hc & Hr & Hs).
    destruct Hinv as (Hc0 & _ & Hs0).
    apply (IH w0 w1 w' Hrest Hmiss). repeat split; congruence.
Qed.

(** The first token with a match answers the query. *)
Lemma getSearchResult_second_level (w : World) (raw : string)
      (pre : list string) (token : string) (post : list string) (wpre : World) :
  Js.truthy (normalize raw) = true ->
  foundItems (fst (searchForSingleWord (normalize raw) false w)) = 0%nat ->
  (1 <? List.length (Js.split (normalize raw)))%nat = true ->
  secondSearchTerm (normalize raw) = pre ++ token :: post ->
  allMiss pre (snd (searchForSingleWord (normalize raw) false w)) = Some wpre ->
  (0 < foundItems (fst (searchForSingleWord token false wpre)))%nat ->
  getSearchResult (Some raw) w = searchForSingleWord token false wpre.
Proof.
  intros Hword Hzero Hmulti Htokens Hmiss Hhit.
  rewrite (getSearchResult_unfold raw w (truthy_normalize raw Hword)). cbv zeta.
  rewrite (surjective_pairing (searchForSingleWord (normalize raw) false w)).
  rewrite Hzero, Hmulti. cbn [Nat.eqb andb].
  rewrite Htokens, (secondLevelSearch_hit pre token post _ wpre Hmiss Hhit).
  now rewrite <- surjective_pairing.
Qed.

Lemma getSynonyms_no_empty_word (w : World) :
  Forall (fun group => ~ In EmptyString group) (synonymsList w) ->
  fst (getSynonyms "" w) = [EmptyString].
Proof.
  unfold getSynonyms. cbn [fst Js.toLowerCase].
  generalize (synonymsList w). intros groups Hgroups.
  induction Hgroups as [|group groups Hg _ IH]; [reflexivity |].
  cbn [fold_left]. unfold synonymsStep at 2.
  destruct (Js.indexOf group "" >? -1)%Z eqn:E; [| exact IH].
  apply indexOf_In in E. contradiction.
Qed.

(** C8, as the code has it. A missing query and the empty query are
    answered with the label [not-definied], no items and no results, and
    no record is scored. *)
Theorem getSearchResult_without_query :
  forall w : World,
    getSearchResult None w
    = ({| search := "not-definied"; foundItems := 0; results := [] |}, w)
    /\ getSearchResult (Some "") w
       = ({| search := "not-definied"; foundItems := 0; results := [] |}, w).
Proof. intros w. split; reflexivity. Qed.

(** C10, as the code has it. When the normalised query contains two
    adjacent spaces and neither the whole query nor any non-empty token
    has a match, the empty token answers: the result is the whole cache in
    cache order, [foundItems] is the size of the cache, the label is the
    synonym list of the empty word (the empty string when no group holds
    it), the relaxed pass never runs, and every record carries the rank
    the last scoring pass of this query gave it, which is not positive. *)
Theorem getSearchResult_empty_token :
  forall (w : World) (raw : string) (w2 : World),
    let word := normalize raw in
    rawData w <> [] ->
    Js.includes word "  " = true ->
    foundItems (fst (searchForSingleWord word false w)) = 0%nat ->
    allMiss (filter Js.truthy (secondSearchTerm word))
            (snd (searchForSingleWord word false w)) = Some w2 ->
    let answer := fst (getSearchResult (Some raw) w) in
    results answer = rawData w2
    /\ map content (results answer) = map content (rawData w)
    /\ foundItems answer = List.length (rawData w)
    /\ Forall notPositive (results answer)
    /\ search answer = Js.toString (fst (getSynonyms "" w))
    /\ (Forall (fun group => ~ In EmptyString group) (synonymsList w) ->
        search answer = EmptyString)
    /\ trace (snd (getSearchResult (Some raw) w))
       = trace w ++ SearchPass word false
                   :: passes (filter Js.truthy (secondSearchTerm word))
                   ++ [SearchPass "" false].
Proof.
  intros w raw w2 word Hcache Hinc Hzero Hmiss answer.
  assert (Hword : Js.truthy word = true).
  { destruct word; [discriminate | reflexivity]. }
  destruct (secondSearchTerm_empty_last word Hinc) as [post Htokens].
  destruct (miss_resets_ranks word false w Hword Hzero) as (Hc1 & Hr1 & Hs1).
  assert (Hinv : map content (rawData w2) = map content (rawData w)
                 /\ Forall notPositive (rawData w2)
                 /\ synonymsList w2 = synonymsList w).
  { eapply (allMiss_resets_ranks _ w _ w2); [| exact Hmiss |].
    - apply Forall_forall. intros t Ht. apply filter_In in Ht. apply Ht.
    - repeat split; assumption. }
  destruct Hinv as (Hc2 & Hr2 & Hs2).
  assert (Hlen : List.length (rawData w2) = List.length (rawData w)).
  { rewrite <- (length_map content (rawData w2)), Hc2. apply length_map. }
  assert (Hanswer : getSearchResult (Some raw) w = searchForSingleWord "" false w2).
  { eapply getSearchResult_second_level; try eassumption.
    - apply split_double_space_length, Hinc.
    - rewrite searchForSingleWord_empty. cbn [fst foundItems]. rewrite Hlen.
      destruct (rawData w); [contradiction | simpl; lia]. }
  subst answer. rewrite Hanswer, searchForSingleWord_empty.
  cbn [fst snd results foundItems search trace].
  assert (Hsyn : fst (getSynonyms "" w2) = fst (getSynonyms "" w)).
  { unfold getSynonyms. cbn [fst]. now rewrite Hs2. }
  rewrite Hsyn.
  repeat split; try assumption.
  - intros Hgroups. rewrite (getSynonyms_no_empty_word w Hgroups). reflexivity.
  - rewrite (allMiss_trace _ _ _ Hmiss), searchForSingleWord_trace.
    fold word. now rewrite <- !app_assoc.
Qed.

End EmptyWords.

(** ** Synonym lookup *)

Section Synonyms.
Context `{Integrator}.

Lemma fold_setAdd_In (arr : list string) :
  forall (seen : list string) (x : string),
    In x (fold_left Js.setAdd arr seen) <-> In x seen \/ In x arr.
Proof.
  induction arr as [|y arr IH]; intros seen x; simpl.
  - tauto.
  - rewrite IH. unfold Js.setAdd.
    destruct (Js.arrayIncludes seen y) eqn:E.
    + apply arrayIncludes_In in E. split; [tauto |].
      intros [Hs | [<- | Ha]]; tauto.
    + rewrite in_app_iff. simpl. tauto.
Qed.

Lemma fromSet_In (arr : list string) (x : string) :
  In x (Js.fromSet arr) <-> In x arr.
Proof. unfold Js.fromSet. rewrite fold_setAdd_In. simpl. tauto. Qed.

Lemma fold_synonymsStep_In (word : string) (groups : list (list string)) :
  forall (synonyms : list string) (x : string),
    In x (fold_left (synonymsStep word) groups synonyms)
    <-> In x synonyms
        \/ exists group, In group groups /\ In word group /\ In x group.
Proof.
  induction groups as [|group groups IH]; intros synonyms x; simpl.
  - split; [tauto | intros [Hs | (g & [] & _)]; exact Hs].
  - rewrite IH. unfold synonymsStep.
    destruct (Js.indexOf group word >? -1)%Z eqn:E.
    + apply indexOf_In in E. rewrite fromSet_In, in_app_iff. split.
      * intros [[Hs | Hg] | (g & Hin & Hw & Hx)]; [tauto | | ].
        -- right. exists group. tauto.
        -- right. exists g. tauto.
      * intros [Hs | (g & [<- | Hin] & Hw & Hx)]; [tauto | tauto |].
        right. exists g. tauto.
    + split.
      * intros [Hs | (g & Hin & Hw & Hx)]; [tauto |]. right. exists g. tauto.
      * intros [Hs | (g & [<- | Hin] & Hw & Hx)]; [tauto | |].
        -- apply indexOf_In in Hw. congruence.
        -- right. exists g. tauto.
Qed.

(** The members of the synonym list of a word: the lower-cased word, and
    the words of every group that holds the word as it was given. *)
Lemma getSynonyms_members (w : World) (word x : string) :
  In x (fst (getSynonyms word w))
  <-> x = Js.toLowerCase word
      \/ exists group, In group (synonymsList w) /\ In word group /\ In x group.
Proof.
  unfold getSynonyms. cbn [fst]. rewrite fold_synonymsStep_In. simpl.
  split; intros [Hx | Hg]; try tauto; left; [destruct Hx as [<- | []] |]; auto.
Qed.

Lemma getSynonyms_keeps_service (w : World) (word : string) :
  snd (getSynonyms word w) = w.
Proof. reflexivity. Qed.

End Synonyms.

(** C6, evaluated. With the group [car; auto] loaded, the lower-case words
    [auto] and [car] both expand to the two words of the group, and the
    capitalised word [Auto] expands to [auto] alone: the group is looked up
    with the word as given, not with the lower-cased word. *)
Theorem getSynonyms_case_sensitive :
  fst (getSynonyms (H := Demo.service) "auto" Demo.fresh) = ["auto"; "car"]
  /\ fst (getSynonyms (H := Demo.service) "car" Demo.fresh) = ["car"; "auto"]
  /\ fst (getSynonyms (H := Demo.service) "Auto" Demo.fresh) = ["auto"]
  /\ Js.toLowerCase "Auto" = Js.toLowerCase "auto".
Proof. repeat split. Qed.

(** ** Flattening *)

Section Flattening.
Context `{Integrator}.

Lemma RawServerData_forest_ind (P : RawServerData Jcr -> Prop) :
  (forall jcr, P (RawNode jcr None)) ->
  (forall jcr kids, Forall P kids -> P (RawNode jcr (Some kids))) ->
  forall node, P node.
Proof.
  intros Hleaf Hnode. fix IH 1. intros [jcr [kids |]].
  - apply Hnode. induction kids as [|kid kids IHkids]; constructor.
    + apply IH.
    + exact IHkids.
  - apply Hleaf.
Qed.

Lemma contributed_cons (qualifies : RawServerData Jcr -> bool) (tag : option AEMTypes)
      (node : RawServerData Jcr) (forest : list (RawServerData Jcr)) :
  contributed qualifies tag (node :: forest)
  = contributed qualifies tag [node] ++ contributed qualifies tag forest.
Proof.
  unfold contributed. simpl. rewrite app_nil_r, filter_app, map_app. reflexivity.
Qed.

Lemma fold_setUpChild (tag : option AEMTypes) (kids : list (RawServerData Jcr)) :
  Forall (fun kid => forall cache,
              setUpChild tag cache kid
              = cache ++ contributed hasChildrenRelation tag [kid]) kids ->
  forall cache,
    fold_left (setUpChild tag) kids cache
    = cache ++ contributed hasChildrenRelation tag kids.
Proof.
  induction 1 as [|kid kids Hkid _ IH]; intros cache; simpl.
  - unfold contributed. simpl. now rewrite app_nil_r.
  - rewrite IH, Hkid, (contributed_cons _ _ kid kids). now rewrite app_assoc.
Qed.

Lemma setUpChild_contributes (tag : option AEMTypes) (node : RawServerData Jcr) :
  forall cache,
    setUpChild tag cache node = cache ++ contributed hasChildrenRelation tag [node].
Proof.
  induction node as [jcr | jcr kids IH] using RawServerData_forest_ind; intros cache.
  - unfold contributed. simpl. now rewrite app_nil_r.
  - change (setUpChild tag cache (RawNode jcr (Some kids)))
      with (fold_left (setUpChild tag) kids
                      (cache ++ [getRawDataElement (RawNode jcr (Some kids)) tag])).
    rewrite (fold_setUpChild tag kids IH).
    unfold contributed. simpl. rewrite app_nil_r, <- app_assoc. reflexivity.
Qed.

Lemma setUpData_rawData (tag : option AEMTypes) (forest : list (RawServerData Jcr))
      (w : World) :
  setUpData (Some forest) tag w
  = (tt, {| rawData := rawData w ++ contributed hasChildrenRelation tag forest;
            synonymsList := synonymsList w;
            lastCacheUpdate := lastCacheUpdate w;
            trace := trace w |}).
Proof.
  unfold setUpData, bind, getRawData, setRawData.
  rewrite fold_setUpChild; [reflexivity |].
  apply Forall_forall. intros kid _. apply setUpChild_contributes.
Qed.

(** C7, as the code has it. The nodes that contribute a record are those
    whose [children] relation is present, an empty array of children
    included; they contribute in pre-order, behind what the cache already
    holds; a node without [children] contributes nothing and ends its
    branch, and missing data changes nothing. *)
Theorem setUpData_flattens :
  forall (w : World) (tag : option AEMTypes) (forest : list (RawServerData Jcr)),
    rawData (snd (setUpData (Some forest) tag w))
    = rawData w ++ map (fun node => getRawDataElement node tag)
                       (filter hasChildrenRelation (flat_map preorder forest))
    /\ setUpData None tag w = (tt, w)
    /\ (forall jcr cache, setUpChild tag cache (RawNode jcr None) = cache)
    /\ (forall jcr, preorder (RawNode jcr None) = [RawNode jcr None])
    /\ (forall node,
           hasChildrenRelation node
           = hasAtLeastOneChild node
             || match children node with Some [] => true | _ => false end).
Proof.
  intros w tag forest. split; [| split; [| split; [| split]]].
  - rewrite setUpData_rawData. reflexivity.
  - reflexivity.
  - reflexivity.
  - reflexivity.
  - intros [jcr [[|kid kids] |]]; reflexivity.
Qed.

End Flattening.

(** ** Refreshing the cache *)

Section Refresh.
Context `{Integrator}.

Lemma mirrorFails_keeps_invalid (outcome : FetchOutcome Jcr)
      (data : option (ServerData Jcr)) :
  mirrorFails outcome = true ->
  isValidResponse data = false ->
  isValidResponse match outcome with
                  | Parsed parsed => parsed
                  | Throws => data
                  end = false.
Proof.
  destruct outcome as [|parsed]; simpl; intros Hfail Hdata; [exact Hdata |].
  now apply negb_true_iff in Hfail.
Qed.

(** The loop over mirrors that all fail: every mirror is requested, in
    order, and nothing else happens to the service. *)
Lemma fetchLoop_all_fail (fetch : nat -> string -> FetchOutcome Jcr)
      (urls : list string) :
  forall (urlIndex : nat) (data : option (ServerData Jcr)) (w : World),
    isValidResponse data = false ->
    (forall i url, nth_error urls i = Some url ->
                   mirrorFails (fetch (urlIndex + i) url) = true) ->
    exists data' w',
      fetchLoop fetch urlIndex urls data false w = ((false, data'), w')
      /\ isValidResponse data' = false
      /\ rawData w' = rawData w
      /\ synonymsList w' = synonymsList w
      /\ lastCacheUpdate w' = lastCacheUpdate w
      /\ trace w' = trace w ++ requests urlIndex urls.
Proof.
  induction urls as [|url rest IH]; intros urlIndex data w Hdata Hfail.
  - exists data, w. simpl. rewrite app_nil_r. repeat split. exact Hdata.
  - assert (Hhere : mirrorFails (fetch urlIndex url) = true).
    { specialize (Hfail 0 url eq_refl). now rewrite Nat.add_0_r in Hfail. }
    pose proof (mirrorFails_keeps_invalid _ data Hhere Hdata) as Hnext.
    destruct (IH (S urlIndex)
                 match fetch urlIndex url with
                 | Parsed parsed => parsed
                 | Throws => data
                 end
                 (snd (log (StartFetching urlIndex url) w)) Hnext)
      as (data' & w' & Hloop & Hinv & Hr & Hs & Hl & Hc).
    { intros i u Hu. specialize (Hfail (S i) u Hu).
      now rewrite Nat.add_succ_r in Hfail. }
    exists data', w'. cbn [fetchLoop]. unfold bind at 1. cbn [log].
    rewrite Hnext. cbn [log snd] in Hloop. rewrite Hloop.
    repeat split; try assumption.
    rewrite Hc. cbn [log snd trace requests]. now rewrite <- app_assoc.
Qed.

(** The loop stops at the first mirror with a valid response. *)
Lemma fetchLoop_first_valid (fetch : nat -> string -> FetchOutcome Jcr)
      (pre : list string) (url : string) (post : list string)
      (valid : option (ServerData Jcr)) :
  forall (urlIndex : nat) (data : option (ServerData Jcr)) (w : World),
    isValidResponse data = false ->
    (forall i u, nth_error pre i = Some u ->
                 mirrorFails (fetch (urlIndex + i) u) = true) ->
    fetch (urlIndex + List.length pre) url = Parsed valid ->
    isValidResponse valid = true ->
    exists w',
      fetchLoop fetch urlIndex (pre ++ url :: post) data false w = ((true, valid), w')
      /\ rawData w' = rawData w
      /\ synonymsList w' = synonymsList w
      /\ lastCacheUpdate w' = lastCacheUpdate w
      /\ trace w' = trace w ++ requests urlIndex (pre ++ [url]).
Proof.
  induction pre as [|p pre IH]; intros urlIndex data w Hdata Hfail Hfetch Hvalid.
  - simpl in Hfetch. rewrite Nat.add_0_r in Hfetch.
    eexists. cbn [app fetchLoop]. unfold bind at 1. cbn [log].
    rewrite Hfetch, Hvalid. unfold ret. repeat split.
  - assert (Hhere : mirrorFails (fetch urlIndex p) = true).
    { specialize (Hfail 0 p eq_refl). now rewrite Nat.add_0_r in Hfail. }
    pose proof (mirrorFails_keeps_invalid _ data Hhere Hdata) as Hnext.
    destruct (IH (S urlIndex)
                 match fetch urlIndex p with
                 | Parsed parsed => parsed
                 | Throws => data
                 end
                 (snd (log (StartFetching urlIndex p) w)) Hnext)
      as (w' & Hloop & Hr & Hs & Hl & Hc).
    { intros i u Hu. specialize (Hfail (S i) u Hu).
      now rewrite Nat.add_succ_r in Hfail. }
    { simpl in Hfetch. now rewrite Nat.add_succ_r in Hfetch. }
    { exact Hvalid. }
    exists w'. cbn [app fetchLoop]. unfold bind at 1. cbn [log].
    rewrite Hnext. cbn [log snd] in Hloop. rewrite Hloop.
    repeat split; try assumption.
    rewrite Hc. cbn [log snd trace requests app]. now rewrite <- app_assoc.
Qed.

Lemma forEach_setUpData (tag : option AEMTypes)
      (entries : list (option (list (RawServerData Jcr)))) :
  forall w : World,
    forEach (fun startChild => setUpData startChild tag) entries w
    = (tt, {| rawData := rawData w ++ flatten tag entries;
              synonymsList := synonymsList w;
              lastCacheUpdate := lastCacheUpdate w;
              trace := trace w |}).
Proof.
  induction entries as [|entry entries IH]; intros w.
  - unfold flatten. simpl. rewrite app_nil_r. destruct w; reflexivity.
  - cbn [forEach]. unfold bind at 1.
    destruct entry as [forest |].
    + rewrite setUpData_rawData, IH. cbn [rawData synonymsList lastCacheUpdate trace].
      unfold flatten. cbn [flat_map]. now rewrite app_assoc.
    + unfold setUpData, ret. rewrite IH. reflexivity.
Qed.

(** C5. When every mirror fails, the cache is what it was and the outcome
    of the refresh is recorded as [Error] with the time of the attempt;
    every mirror was requested, in order. *)
Theorem getServerData_total_failure :
  forall (fetch : nat -> string -> FetchOutcome Jcr) (now : string)
         (serverDataRequestConfig : option ServerDataRequestConfig) (w : World),
    (forall i url,
        nth_error (searchUrlsOf (getSearchUrl serverDataRequestConfig)) i = Some url ->
        mirrorFails (fetch i url) = true) ->
    let w' := snd (getServerData fetch now serverDataRequestConfig w) in
    rawData w' = rawData w
    /\ lastCacheUpdate w' = Some {| time := now; status := Error |}
    /\ synonymsList w' = synonymsList w
    /\ trace w'
       = trace w ++ requests 0 (searchUrlsOf (getSearchUrl serverDataRequestConfig)).
Proof.
  intros fetch now cfg w Hfail w'. subst w'.
  destruct (fetchLoop_all_fail fetch (searchUrlsOf (getSearchUrl cfg)) 0 None w
                               eq_refl Hfail)
    as (data' & w1 & Hloop & _ & Hr & Hs & _ & Hc).
  unfold getServerData, bind. rewrite Hloop.
  cbn [setLastCacheUpdate snd rawData lastCacheUpdate synonymsList trace].
  repeat split; assumption.
Qed.

(** C4, as the code has it. With an array of mirrors, the mirrors are
    requested in order up to the first one whose response parses and has a
    non-empty [pathList], and no further; a full refresh (no request
    configuration) then makes the cache the flattening of that
    [pathList], a configured request appends the flattening to the cache;
    the outcome is recorded as [Success]. *)
Theorem getServerData_failover :
  forall (fetch : nat -> string -> FetchOutcome Jcr) (now : string)
         (serverDataRequestConfig : option ServerDataRequestConfig) (w : World)
         (pre : list string) (url : string) (post : list string)
         (valid : option (ServerData Jcr)),
    getSearchUrl serverDataRequestConfig = ManyUrls (pre ++ url :: post) ->
    (forall i u, nth_error pre i = Some u -> mirrorFails (fetch i u) = true) ->
    fetch (List.length pre) url = Parsed valid ->
    isValidResponse valid = true ->
    let w' := snd (getServerData fetch now serverDataRequestConfig w) in
    trace w' = trace w ++ requests 0 (pre ++ [url])
    /\ (exists body entry entries,
           valid = Some body /\ pathList body = Some (entry :: entries))
    /\ rawData w'
       = match serverDataRequestConfig with
         | None => []
         | Some _ => rawData w
         end ++ flatten (option_map requestType serverDataRequestConfig)
                        (pathListOf valid)
    /\ lastCacheUpdate w' = Some {| time := now; status := Success |}
    /\ synonymsList w' = synonymsList w.
Proof.
  intros fetch now cfg w pre url post valid Hurls Hfail Hfetch Hvalid w'. subst w'.
  destruct (fetchLoop_first_valid fetch pre url post valid 0 None w
                                  eq_refl Hfail Hfetch Hvalid)
    as (w1 & Hloop & Hr & Hs & Hl & Hc).
  unfold getServerData. rewrite Hurls. cbn [searchUrlsOf].
  unfold bind. rewrite Hloop.
  assert (Hshape : exists body entry entries,
             valid = Some body /\ pathList body = Some (entry :: entries)).
  { unfold isValidResponse in Hvalid.
    destruct valid as [body |]; [| discriminate].
    destruct (pathList body) as [[|entry entries] |] eqn:E; try discriminate.
    exists body, entry, entries. split; [reflexivity | exact E]. }
  destruct cfg as [cfg |].
  - unfold ret. rewrite forEach_setUpData.
    cbn [setLastCacheUpdate snd rawData lastCacheUpdate synonymsList trace].
    rewrite Hr. repeat split; assumption.
  - cbn [setRawData]. rewrite forEach_setUpData.
    cbn [setLastCacheUpdate snd rawData lastCacheUpdate synonymsList trace].
    repeat split; assumption.
Qed.

Lemma runCallBacks_app (pre : list Callback) :
  forall (index : nat) (rest : list Callback) (w wpre : World),
    runCallBacks index pre w = Returned wpre ->
    runCallBacks index (pre ++ rest) w
    = runCallBacks (index + List.length pre) rest wpre.
Proof.
  induction pre as [|fn pre IH]; intros index rest w wpre Hrun.
  - simpl in Hrun. injection Hrun as <-. simpl. now rewrite Nat.add_0_r.
  - cbn [runCallBacks app] in *.
    destruct (fn (snd (log (CallbackInvoked index) w))) as [w1 | w1];
      [| discriminate].
    rewrite (IH _ rest _ _ Hrun). simpl. now rewrite Nat.add_succ_r.
Qed.

(** C9, as the code has it. After the fetch the callbacks run one after
    the other in registration order; when all of them return, the cycle
    ends in the state the last one left; when one throws, the error is
    logged, the callbacks registered after it are not invoked, and the
    cycle still ends without an exception. *)
Theorem triggerGetServerData_callbacks :
  forall (fetch : nat -> string -> FetchOutcome Jcr) (now : string) (w : World),
    let loaded := snd (getServerData fetch now None w) in
    (forall (fns : list Callback) (w' : World),
        runCallBacks 0 fns loaded = Returned w' ->
        triggerGetServerData fetch now fns w = (tt, w'))
    /\ (forall (pre : list Callback) (fn : Callback) (post : list Callback)
               (wpre wthrown : World),
           runCallBacks 0 pre loaded = Returned wpre ->
           fn (snd (log (CallbackInvoked (List.length pre)) wpre)) = Threw wthrown ->
           triggerGetServerData fetch now (pre ++ fn :: post) w
           = (tt, {| rawData := rawData wthrown;
                     synonymsList := synonymsList wthrown;
                     lastCacheUpdate := lastCacheUpdate wthrown;
                     trace := trace wthrown ++ [ErrorLogged] |}))
    /\ (forall (fns : list Callback), exists w',
           triggerGetServerData fetch now fns w = (tt, w')).
Proof.
  intros fetch now w loaded. split; [| split].
  - intros fns w' Hrun. unfold triggerGetServerData. fold loaded. now rewrite Hrun.
  - intros pre fn post wpre wthrown Hpre Hthrow.
    unfold triggerGetServerData. fold loaded.
    rewrite (runCallBacks_app pre 0 (fn :: post) loaded wpre Hpre).
    cbn [runCallBacks Nat.add]. rewrite Hthrow. reflexivity.
  - intros fns. unfold triggerGetServerData. fold loaded.
    destruct (runCallBacks 0 fns loaded) as [w' | w']; eexists; reflexivity.
Qed.

End Refresh.

(** ** The theorems at work on the page search *)

Section Scenarios.

#[local] Existing Instance Demo.service.

(** Ranking additivity: the name (3) and the description (2) both hold
    the literal word, which scores 5; a description that only holds the
    synonym scores the synonym rank 1; a record without match scores 0. *)
Example ranks_of_auto :
  map searchRank (rawData (snd (searchForSingleWord "auto" false Demo.fresh)))
  = [Some 5%Z; Some 1%Z; Some 0%Z]
  /\ map (fun r => Demo.name (content r))
         (results (fst (searchForSingleWord "auto" false Demo.fresh)))
     = ["Autoversicherung"; "Haus"].
Proof. split; reflexivity. Qed.

(** Three mirrors, the first two with network errors: the cache is the
    flattening of the third mirror's tree, in pre-order and without the
    node that has no [children]. *)
Example failover_of_three_mirrors :
  let w' := snd (getServerData Demo.thirdAnswers "2020-01-03T18:04:57Z" None Demo.fresh) in
  map (fun r => Demo.name (content r)) (rawData w') = ["root"; "inner"; "hollow"]
  /\ lastCacheUpdate w' = Some {| time := "2020-01-03T18:04:57Z"; status := Success |}
  /\ trace w' = requests 0 Demo.mirrors.
Proof. repeat split. Qed.


(** C4 at work: a full refresh through the third mirror. *)
Lemma getServerData_failover_witness :
  let w' := snd (getServerData Demo.thirdAnswers "18:04" None Demo.fresh) in
  rawData w' = flatten None (pathListOf (Some Demo.body))
  /\ lastCacheUpdate w' = Some {| time := "18:04"; status := Success |}.
Proof.
  destruct (getServerData_failover (H := Demo.service)
              Demo.thirdAnswers "18:04" None Demo.fresh
              ["http://m1/p.json"; "http://m2/p.json"] "http://m3/p.json" []
              (Some Demo.body) eq_refl)
    as (_ & _ & Hcache & Hstatus & _).
  - intros [|[|i]] u Hu; try reflexivity. destruct i; discriminate.
  - reflexivity.
  - reflexivity.
  - split; assumption.
Defined.

(** C4 as stated fails for a configured request: the flattening is
    appended to the three records the cache held. *)
Lemma getServerData_configured_request_appends :
  mirrorFails (Demo.thirdAnswers 0 "http://m1/p.json") = true
  /\ mirrorFails (Demo.thirdAnswers 1 "http://m2/p.json") = true
  /\ Demo.thirdAnswers 2 "http://m3/p.json" = Parsed (Some Demo.body)
  /\ isValidResponse (Some Demo.body) = true
  /\ rawData (snd (getServerData Demo.thirdAnswers "18:04"
                                 (Some Demo.assetRequest) Demo.fresh))
     <> flatten (Some Asset) (pathListOf (Some Demo.body)).
Proof.
  repeat split. intros Heq.
  apply (f_equal (@List.length _)) in Heq. vm_compute in Heq. discriminate.
Qed.

(** C5 at work: a network error, a body without [pathList] and an empty
    [pathList]. *)
Lemma getServerData_total_failure_witness :
  let w' := snd (getServerData Demo.allFail "18:04" None Demo.fresh) in
  rawData w' = rawData Demo.fresh
  /\ lastCacheUpdate w' = Some {| time := "18:04"; status := Error |}.
Proof.
  destruct (getServerData_total_failure (H := Demo.service) Demo.allFail "18:04" None Demo.fresh)
    as (Hcache & Hstatus & _).
  - intros [|[|i]] url _; reflexivity.
  - split; assumption.
Defined.

(** C7 as stated fails on a node whose [children] is the empty array: it
    has no child and still contributes a record. *)
Lemma setUpData_keeps_childless_node :
  hasAtLeastOneChild Demo.hollow = false
  /\ rawData (snd (setUpData (Some [Demo.hollow]) None Demo.fresh))
     <> rawData Demo.fresh
        ++ map (fun node => getRawDataElement node None)
               (filter hasAtLeastOneChild (flat_map preorder [Demo.hollow])).
Proof.
  split; [reflexivity |]. intros Heq.
  apply (f_equal (@List.length _)) in Heq. vm_compute in Heq. discriminate.
Qed.

(** C8 as stated fails on the label: it is spelled [not-definied]. *)
Lemma getSearchResult_label_misspelled :
  fst (getSearchResult None Demo.fresh)
  <> {| search := "not-defined"; foundItems := 0; results := [] |}
  /\ fst (getSearchResult (Some "") Demo.fresh)
     <> {| search := "not-defined"; foundItems := 0; results := [] |}.
Proof. split; intros Heq; apply (f_equal search) in Heq; discriminate. Qed.

(** C9 at work: the second of three callbacks throws. *)
Lemma triggerGetServerData_callbacks_witness :
  trace (snd (triggerGetServerData Demo.allFail "18:04"
                                     [Demo.quiet; Demo.failing; Demo.quiet]
                                     Demo.fresh))
  = requests 0 Demo.mirrors ++ [CallbackInvoked 0; CallbackInvoked 1; ErrorLogged].
Proof.
  destruct (triggerGetServerData_callbacks (H := Demo.service) Demo.allFail "18:04" Demo.fresh)
    as (_ & Hthrows & _).
  pose proof (Hthrows [Demo.quiet] Demo.failing [Demo.quiet] _ _ eq_refl eq_refl)
    as Hrun.
  cbn [app] in Hrun. rewrite Hrun. reflexivity.
Defined.

(** C9 as stated fails: the callback registered behind one that throws is
    not invoked. *)
Lemma triggerGetServerData_chain_stops :
  let w' := snd (triggerGetServerData Demo.allFail "18:04"
                                      [Demo.failing; Demo.quiet] Demo.fresh) in
  In (CallbackInvoked 0) (trace w')
  /\ In ErrorLogged (trace w')
  /\ ~ In (CallbackInvoked 1) (trace w').
Proof.
  vm_compute. split; [| split].
  - tauto.
  - tauto.
  - intros Hin. repeat (destruct Hin as [Hin | Hin]; [discriminate |]). exact Hin.
Qed.

(** C10 at work: ["x  y"] after the query [auto] was answered. *)
Lemma getSearchResult_empty_token_witness :
  foundItems (fst (getSearchResult (Some "x  y") Demo.used)) = 3%nat
  /\ search (fst (getSearchResult (Some "x  y") Demo.used)) = EmptyString.
Proof.
  destruct (getSearchResult_empty_token (H := Demo.service)
              Demo.used "x  y"
              (snd (searchForSingleWord
                      "y" false
                      (snd (searchForSingleWord
                              "x" false
                              (snd (searchForSingleWord "x  y" false Demo.used)))))))
    as (_ & _ & Hcount & _ & _ & Hlabel & _).
  - vm_compute. discriminate.
  - reflexivity.
  - reflexivity.
  - reflexivity.
  - split; [exact Hcount |]. apply Hlabel.
    vm_compute. constructor; [| constructor].
    intros [Hin | [Hin | []]]; discriminate.
Defined.

(** C10 as stated fails on the ranks: the query [auto] left the ranks 5, 1
    and 0 on the records, and the answer to ["x  y"] carries the rank 0 on
    every record. *)
Lemma getSearchResult_empty_token_resets_ranks :
  rawData Demo.used <> []
  /\ Js.includes (normalize "x  y") "  " = true
  /\ foundItems (fst (searchForSingleWord (normalize "x  y") false Demo.used)) = 0%nat
  /\ allMiss (filter Js.truthy (secondSearchTerm (normalize "x  y")))
             (snd (searchForSingleWord (normalize "x  y") false Demo.used))
     <> None
  /\ map searchRank (rawData Demo.used) = [Some 5%Z; Some 1%Z; Some 0%Z]
  /\ map searchRank (results (fst (getSearchResult (Some "x  y") Demo.used)))
     = [Some 0%Z; Some 0%Z; Some 0%Z]
  /\ results (fst (getSearchResult (Some "x  y") Demo.used)) <> rawData Demo.used.
Proof.
  split; [vm_compute; discriminate |].
  split; [reflexivity |].
  split; [reflexivity |].
  split; [vm_compute; discriminate |].
  split; [reflexivity |].
  split; [reflexivity |].
  intros Heq. apply (f_equal (map searchRank)) in Heq.
  vm_compute in Heq. discriminate.
Qed.

End Scenarios.

(** ** The synonym table *)

Section SynonymTable.

Lemma lowerChar_idempotent (c : ascii) : Js.lowerChar (Js.lowerChar c) = Js.lowerChar c.
Proof.
  destruct c as [b0 b1 b2 b3 b4 b5 b6 b7].
  destruct b0, b1, b2, b3, b4, b5, b6, b7; vm_compute; reflexivity.
Qed.

Lemma isWhiteSpace_lowerChar (c : ascii) :
  Js.isWhiteSpace (Js.lowerChar c) = Js.isWhiteSpace c.
Proof.
  destruct c as [b0 b1 b2 b3 b4 b5 b6 b7].
  destruct b0, b1, b2, b3, b4, b5, b6, b7; vm_compute; reflexivity.
Qed.

Lemma toLowerCase_idempotent (s : string) :
  Js.toLowerCase (Js.toLowerCase s) = Js.toLowerCase s.
Proof.
  induction s as [|c s IH]; simpl; [reflexivity |].
  now rewrite lowerChar_idempotent, IH.
Qed.

Lemma toLowerCase_empty (s : string) :
  Js.toLowerCase s = EmptyString <-> s = EmptyString.
Proof. destruct s; simpl; split; congruence. Qed.

Lemma trimStart_toLowerCase (s : string) :
  Js.trimStart (Js.toLowerCase s) = Js.toLowerCase (Js.trimStart s).
Proof.
  induction s as [|c s IH]; simpl; [reflexivity |].
  rewrite isWhiteSpace_lowerChar. destruct (Js.isWhiteSpace c); [exact IH | reflexivity].
Qed.

Lemma allWhiteSpace_toLowerCase (s : string) :
  Js.allWhiteSpace (Js.toLowerCase s) = Js.allWhiteSpace s.
Proof.
  induction s as [|c s IH]; simpl; [reflexivity |].
  now rewrite isWhiteSpace_lowerChar, IH.
Qed.

Lemma trimEnd_toLowerCase (s : string) :
  Js.trimEnd (Js.toLowerCase s) = Js.toLowerCase (Js.trimEnd s).
Proof.
  induction s as [|c s IH]; [reflexivity |].
  cbn [Js.toLowerCase Js.trimEnd].
  change (Js.allWhiteSpace (String (Js.lowerChar c) (Js.toLowerCase s)))
    with (Js.allWhiteSpace (Js.toLowerCase (String c s))).
  rewrite allWhiteSpace_toLowerCase.
  destruct (Js.allWhiteSpace (String c s)); [reflexivity |].
  cbn [Js.toLowerCase]. now rewrite IH.
Qed.

Lemma trim_toLowerCase (s : string) :
  Js.trim (Js.toLowerCase s) = Js.toLowerCase (Js.trim s).
Proof. unfold Js.trim. now rewrite trimStart_toLowerCase, trimEnd_toLowerCase. Qed.

Lemma allWhiteSpace_trimEnd (s : string) :
  Js.allWhiteSpace (Js.trimEnd s) = Js.allWhiteSpace s.
Proof.
  induction s as [|c s IH]; [reflexivity |].
  cbn [Js.trimEnd]. destruct (Js.allWhiteSpace (String c s)) eqn:E; [reflexivity |].
  cbn [Js.allWhiteSpace] in *. now rewrite IH.
Qed.

Lemma trimEnd_idempotent (s : string) : Js.trimEnd (Js.trimEnd s) = Js.trimEnd s.
Proof.
  induction s as [|c s IH]; [reflexivity |].
  cbn [Js.trimEnd]. destruct (Js.allWhiteSpace (String c s)) eqn:E; [reflexivity |].
  cbn [Js.trimEnd].
  change (Js.allWhiteSpace (String c (Js.trimEnd s)))
    with (Js.isWhiteSpace c && Js.allWhiteSpace (Js.trimEnd s)).
  rewrite allWhiteSpace_trimEnd.
  change (Js.isWhiteSpace c && Js.allWhiteSpace s) with (Js.allWhiteSpace (String c s)).
  now rewrite E, IH.
Qed.

(** Nothing to trim at the start: the string is empty or starts with a
    code unit that is not white space. *)
Lemma trimStart_fixed (s : string) :
  match s with
  | EmptyString => True
  | String c _ => Js.isWhiteSpace c = false
  end ->
  Js.trimStart s = s.
Proof. destruct s as [|c s]; simpl; [reflexivity |]. now intros ->. Qed.

Lemma trimStart_head (s : string) :
  match Js.trimStart s with
  | EmptyString => True
  | String c _ => Js.isWhiteSpace c = false
  end.
Proof.
  induction s as [|c s IH]; simpl; [exact I |].
  destruct (Js.isWhiteSpace c) eqn:E; [exact IH | exact E].
Qed.

Lemma trimEnd_head (s : string) :
  match s with
  | EmptyString => True
  | String c _ => Js.isWhiteSpace c = false
  end ->
  match Js.trimEnd s with
  | EmptyString => True
  | String c _ => Js.isWhiteSpace c = false
  end.
Proof.
  destruct s as [|c s]; [trivial |]. cbn [Js.trimEnd].
  destruct (Js.allWhiteSpace (String c s)); trivial.
Qed.

Lemma trim_idempotent (s : string) : Js.trim (Js.trim s) = Js.trim s.
Proof.
  unfold Js.trim.
  rewrite (trimStart_fixed (Js.trimEnd (Js.trimStart s))).
  - apply trimEnd_idempotent.
  - apply trimEnd_head, trimStart_head.
Qed.

Lemma parseSynonym_normalized (synonym : string) :
  Js.toLowerCase (parseSynonym synonym) = parseSynonym synonym
  /\ Js.trim (parseSynonym synonym) = parseSynonym synonym.
Proof.
  unfold parseSynonym. split.
  - apply toLowerCase_idempotent.
  - now rewrite trim_toLowerCase, trim_idempotent.
Qed.

Lemma getDefaultSynonyms_In (rawText : string) (group : list string) (word : string) :
  In group (getDefaultSynonyms rawText) ->
  In word group ->
  word <> EmptyString /\ Js.toLowerCase word = word /\ Js.trim word = word.
Proof.
  intros Hgroup Hword.
  unfold getDefaultSynonyms in Hgroup. apply in_map_iff in Hgroup.
  destruct Hgroup as (line & <- & _).
  apply filter_In in Hword. destruct Hword as [Hword Hkeep].
  apply in_map_iff in Hword. destruct Hword as (synonym & <- & _).
  split; [| apply parseSynonym_normalized].
  intros Hempty. rewrite Hempty in Hkeep. discriminate.
Qed.

(** X1. Whatever the synonym file holds, the table has one group per line
    (an empty line gives an empty group) and every word of every group is
    non-empty, in lower case, and free of white space at both ends. *)
Theorem getDefaultSynonyms_words :
  forall (rawText : string) (group : list string) (word : string),
    In group (getDefaultSynonyms rawText) ->
    In word group ->
    List.length (getDefaultSynonyms rawText)
    = List.length (Js.splitOn "010"%char rawText)
    /\ word <> EmptyString
    /\ Js.toLowerCase word = word
    /\ Js.trim word = word.
Proof.
  intros rawText group word Hgroup Hword. split.
  - unfold getDefaultSynonyms. apply length_map.
  - exact (getDefaultSynonyms_In rawText group word Hgroup Hword).
Qed.

Lemma NoDup_snoc {A : Type} (l : list A) (x : A) :
  NoDup l -> ~ In x l -> NoDup (l ++ [x]).
Proof.
  induction 1 as [|y l Hy Hl IH]; intros Hx; simpl.
  - constructor; [intros [] | constructor].
  - constructor.
    + rewrite in_app_iff. simpl. intros [Hin | [<- | []]]; [contradiction |].
      apply Hx. now left.
    + apply IH. intros Hin. apply Hx. now right.
Qed.

Lemma fold_setAdd_shape (arr : list string) :
  forall seen : list string,
    NoDup seen ->
    NoDup (fold_left Js.setAdd arr seen)
    /\ exists added, fold_left Js.setAdd arr seen = seen ++ added.
Proof.
  induction arr as [|x arr IH]; intros seen Hseen; simpl.
  - split; [exact Hseen | exists []; now rewrite app_nil_r].
  - unfold Js.setAdd at 2 4. destruct (Js.arrayIncludes seen x) eqn:E.
    + apply IH, Hseen.
    + assert (Hx : ~ In x seen).
      { intros Hin. apply arrayIncludes_In in Hin. congruence. }
      destruct (IH (seen ++ [x]) (NoDup_snoc seen x Hseen Hx)) as [Hnd [added Hadd]].
      split; [exact Hnd |]. exists (x :: added). rewrite Hadd, <- app_assoc. reflexivity.
Qed.

Lemma fold_synonymsStep_shape (word head : string) (groups : list (list string)) :
  forall synonyms : list string,
    NoDup synonyms ->
    hd_error synonyms = Some head ->
    NoDup (fold_left (synonymsStep word) groups synonyms)
    /\ hd_error (fold_left (synonymsStep word) groups synonyms) = Some head.
Proof.
  induction groups as [|group groups IH]; intros synonyms Hnd Hhd; simpl.
  - split; assumption.
  - apply IH; unfold synonymsStep;
      destruct (Js.indexOf group word >? -1)%Z; try assumption.
    + apply (fold_setAdd_shape (synonyms ++ group) []). constructor.
    + destruct synonyms as [|first rest]; [discriminate |].
      injection Hhd as ->. unfold Js.fromSet. cbn [app fold_left].
      unfold Js.setAdd at 2. cbn [Js.arrayIncludes existsb app].
      destruct (fold_setAdd_shape (rest ++ group) [head]) as [_ [added ->]].
      * constructor; [intros [] | constructor].
      * reflexivity.
Qed.

Lemma prefix_append (s t : string) : String.prefix s (s ++ t)%string = true.
Proof.
  induction s as [|c s IH]; simpl.
  - destruct t; reflexivity.
  - destruct (ascii_dec c c) as [_ | Hc]; [exact IH | now elim Hc].
Qed.

Lemma prefix_refl (s : string) : String.prefix s s = true.
Proof.
  induction s as [|c s IH]; simpl; [reflexivity |].
  destruct (ascii_dec c c) as [_ | Hc]; [exact IH | now elim Hc].
Qed.

Section Lookup.
Context `{Integrator}.

(** X2. The synonym list of a word starts with the lower-cased word, holds
    no word twice and holds every word of every group of the table that
    holds the word as given; so the label of an answer starts with the
    word that was scored. *)
Theorem getSynonyms_shape :
  forall (w : World) (word : string),
    let synonyms := fst (getSynonyms word w) in
    hd_error synonyms = Some (Js.toLowerCase word)
    /\ NoDup synonyms
    /\ (forall group, In group (synonymsList w) -> In word group -> incl group synonyms)
    /\ String.prefix (Js.toLowerCase word) (Js.toString synonyms) = true.
Proof.
  intros w word synonyms.
  destruct (fold_synonymsStep_shape word (Js.toLowerCase word) (synonymsList w)
                                    [Js.toLowerCase word])
    as [Hnd Hhd]; [constructor; [intros [] | constructor] | reflexivity |].
  change (fold_left (synonymsStep word) (synonymsList w) [Js.toLowerCase word])
    with synonyms in Hnd, Hhd.
  split; [exact Hhd |]. split; [exact Hnd |]. split.
  - intros group Hgroup Hword x Hx. apply getSynonyms_members.
    right. exists group. tauto.
  - destruct synonyms as [|first [|second rest]]; [discriminate | |];
      injection Hhd as ->.
    + apply prefix_refl.
    + apply prefix_append.
Qed.

(** X3. Once the table is loaded from the synonym file, the empty word has
    no synonym but itself, and every synonym of a word, the lower-cased
    word itself apart, is non-empty, in lower case and free of white space
    at both ends. *)
Theorem loadSynonyms_normalized :
  forall (rawText : string) (w : World) (word x : string),
    let w' := snd (loadSynonyms rawText w) in
    In x (fst (getSynonyms word w')) ->
    fst (getSynonyms "" w') = [EmptyString]
    /\ rawData w' = rawData w
    /\ (x = Js.toLowerCase word
        \/ (x <> EmptyString /\ Js.toLowerCase x = x /\ Js.trim x = x)).
Proof.
  intros rawText w word x w' Hx. split; [| split].
  - apply getSynonyms_no_empty_word. apply Forall_forall.
    intros group Hgroup Hempty.
    destruct (getDefaultSynonyms_In rawText group "" Hgroup Hempty) as [Hne _].
    now apply Hne.
  - reflexivity.
  - apply getSynonyms_members in Hx. destruct Hx as [-> | (group & Hgroup & _ & Hin)].
    + now left.
    + right. exact (getDefaultSynonyms_In rawText group x Hgroup Hin).
Qed.

Lemma get_put_same {V : Type} (key : string) (value : V) (obj : list (string * V)) :
  Js.get key (Js.put key value obj) = Some value.
Proof.
  induction obj as [|[k v] obj IH]; simpl.
  - now rewrite String.eqb_refl.
  - destruct (String.eqb k key) eqn:E; simpl; rewrite E; [reflexivity | exact IH].
Qed.

Lemma get_put_other {V : Type} (key other : string) (value : V)
      (obj : list (string * V)) :
  other <> key ->
  Js.get key (Js.put other value obj) = Js.get key obj.
Proof.
  intros Hne. induction obj as [|[k v] obj IH]; simpl.
  - apply String.eqb_neq in Hne. now rewrite Hne.
  - destruct (String.eqb k other) eqn:E; simpl.
    + apply String.eqb_eq in E. subst k. apply String.eqb_neq in Hne. now rewrite Hne.
    + destruct (String.eqb k key); [reflexivity | exact IH].
Qed.

Lemma get_fold_assign {V : Type} (f : string -> V) (key : string) (words : list string) :
  forall obj : list (string * V),
    Js.get key (fold_left (fun results word => Js.assign word (f word) results) words obj)
    = if existsb (String.eqb key) words && negb (String.eqb key "__proto__")
      then Some (f key) else Js.get key obj.
Proof.
  induction words as [|word words IH]; intros obj; simpl; [reflexivity |].
  rewrite IH. destruct (existsb (String.eqb key) words && negb (String.eqb key "__proto__"))
    eqn:Erest.
  - apply andb_true_iff in Erest. destruct Erest as [-> ->].
    now rewrite orb_true_r.
  - unfold Js.assign. destruct (String.eqb key word) eqn:E.
    + apply String.eqb_eq in E. subst word. cbn [orb andb].
      destruct (String.eqb key "__proto__"); [reflexivity | apply get_put_same].
    + cbn [orb]. rewrite Erest.
      destruct (String.eqb word "__proto__"); [reflexivity |].
      apply get_put_other. apply String.eqb_neq in E. congruence.
Qed.

(** What [find] and the truthiness of the word found amount to. *)
Lemma mentions_spec (word : string) (synonymList : list string) :
  mentions word synonymList
  = negb (String.eqb word "")
    && existsb (fun synonym => String.eqb (Js.toLowerCase synonym) (Js.toLowerCase word))
               synonymList.
Proof.
  unfold mentions. induction synonymList as [|synonym rest IH]; simpl.
  - now rewrite andb_false_r.
  - destruct (String.eqb (Js.toLowerCase synonym) (Js.toLowerCase word)) eqn:E.
    + rewrite orb_true_l, andb_true_r. apply String.eqb_eq in E.
      destruct synonym as [|c synonym'].
      * simpl in E. symmetry in E. apply (proj1 (toLowerCase_empty word)) in E.
        rewrite E. reflexivity.
      * destruct word as [|d word']; [discriminate | reflexivity].
    + exact IH.
Qed.

(** X4. [getSynonymsOfWord] reports, for every word between the commas
    other than [__proto__], the groups of the table that hold the word,
    compared without regard to case, in table order; two words that differ
    only in case are reported with the same groups; the empty word is
    reported with no group, even when a group holds the empty string;
    nothing else is reported, [__proto__] never. *)
Theorem getSynonymsOfWord_lookup :
  forall (w : World) (searchWord word : string),
    In word (Js.splitOn ","%char searchWord) ->
    word <> "__proto__" ->
    let report := fst (getSynonymsOfWord searchWord w) in
    Js.get word report
    = Some (filter (fun group =>
                      negb (String.eqb word "")
                      && existsb (fun synonym =>
                                    String.eqb (Js.toLowerCase synonym)
                                               (Js.toLowerCase word)) group)
                   (synonymsList w))
    /\ (word = EmptyString -> Js.get word report = Some [])
    /\ (forall other,
           In other (Js.splitOn ","%char searchWord) ->
           Js.toLowerCase other = Js.toLowerCase word ->
           other <> EmptyString ->
           other <> "__proto__" ->
           Js.get other report = Js.get word report)
    /\ (forall key, ~ In key (Js.splitOn ","%char searchWord) -> Js.get key report = None)
    /\ Js.get "__proto__" report = None
    /\ snd (getSynonymsOfWord searchWord w) = w.
Proof.
  intros w searchWord word Hword Hproto report.
  assert (Hget : forall key,
             Js.get key report
             = if existsb (String.eqb key) (Js.splitOn ","%char searchWord)
                  && negb (String.eqb key "__proto__")
               then Some (filter (mentions key) (synonymsList w)) else None).
  { intros key. unfold report, getSynonymsOfWord. cbn [fst].
    rewrite (get_fold_assign (fun word => filter (mentions word) (synonymsList w))).
    reflexivity. }
  assert (Hin : forall key, In key (Js.splitOn ","%char searchWord) ->
                            key <> "__proto__" ->
                            existsb (String.eqb key) (Js.splitOn ","%char searchWord)
                            && negb (String.eqb key "__proto__") = true).
  { intros key Hkey Hne. apply andb_true_iff. split.
    - apply existsb_exists. exists key. split; [exact Hkey | apply String.eqb_refl].
    - apply negb_true_iff, String.eqb_neq, Hne. }
  assert (Hfirst : Js.get word report
                   = Some (filter (fun group =>
                                     negb (String.eqb word "")
                                     && existsb (fun synonym =>
                                                   String.eqb (Js.toLowerCase synonym)
                                                              (Js.toLowerCase word)) group)
                                  (synonymsList w))).
  { rewrite Hget, (Hin word Hword Hproto). f_equal. apply filter_ext. intros group.
    apply mentions_spec. }
  split; [exact Hfirst |]. split; [| split; [| split; [| split]]].
  - intros ->. rewrite Hfirst. f_equal.
    generalize (synonymsList w). intros groups.
    induction groups as [|group groups IH]; [reflexivity | exact IH].
  - intros other Hother Hcase Hne Hne'.
    rewrite Hfirst, Hget, (Hin other Hother Hne'). f_equal. apply filter_ext. intros group.
    rewrite mentions_spec, Hcase. f_equal.
    destruct other as [|c other']; [congruence |].
    destruct word as [|d word']; [discriminate | reflexivity].
  - intros key Hkey. rewrite Hget.
    destruct (existsb (String.eqb key) (Js.splitOn ","%char searchWord)) eqn:E;
      [| reflexivity].
    apply existsb_exists in E. destruct E as (k & Hk & Heq).
    apply String.eqb_eq in Heq. subst k. contradiction.
  - rewrite Hget. cbn [String.eqb negb]. now rewrite andb_false_r.
  - reflexivity.
Qed.

End Lookup.

End SynonymTable.

(** ** More on refreshing *)

Section RefreshRuns.
Context `{Integrator}.

Lemma firstValid_Some (fetch : nat -> string -> FetchOutcome Jcr) (urls : list string) :
  forall (urlIndex before : nat) (data : option (ServerData Jcr)),
    firstValid fetch urlIndex urls = Some (before, data) ->
    exists url,
      nth_error urls before = Some url
      /\ fetch (urlIndex + before) url = Parsed data
      /\ isValidResponse data = true.
Proof.
  induction urls as [|url rest IH]; intros urlIndex before data Hfirst; simpl in Hfirst.
  - discriminate.
  - destruct (mirrorFails (fetch urlIndex url)) eqn:Hfail.
    + destruct (firstValid fetch (S urlIndex) rest) as [[k d] |] eqn:Hrest;
        [| discriminate].
      injection Hfirst as <- <-.
      destruct (IH _ _ _ Hrest) as (u & Hu & Hf & Hv).
      exists u. rewrite Nat.add_succ_r. simpl. auto.
    + destruct (fetch urlIndex url) as [|parsed] eqn:Hfetch; [discriminate |].
      injection Hfirst as <- <-. exists url. rewrite Nat.add_0_r. simpl.
      repeat split; [exact Hfetch |]. simpl in Hfail. now apply negb_false_iff in Hfail.
Qed.

Lemma firstValid_None (fetch : nat -> string -> FetchOutcome Jcr) (urls : list string) :
  forall (urlIndex : nat),
    firstValid fetch urlIndex urls = None ->
    forall i url, nth_error urls i = Some url ->
                  mirrorFails (fetch (urlIndex + i) url) = true.
Proof.
  induction urls as [|url rest IH]; intros urlIndex Hfirst i u Hu.
  - destruct i; discriminate.
  - simpl in Hfirst. destruct (mirrorFails (fetch urlIndex url)) eqn:Hfail.
    + destruct (firstValid fetch (S urlIndex) rest) as [[k d] |] eqn:Hrest;
        [discriminate |].
      destruct i as [|i]; simpl in Hu.
      * injection Hu as <-. now rewrite Nat.add_0_r.
      * rewrite Nat.add_succ_r. apply (IH (S urlIndex) Hrest i u Hu).
    + destruct (fetch urlIndex url); [discriminate | discriminate].
Qed.

(** The loop over the mirrors, by the first valid mirror. *)
Lemma fetchLoop_run (fetch : nat -> string -> FetchOutcome Jcr) (urls : list string) :
  forall (urlIndex : nat) (data : option (ServerData Jcr)) (w : World),
    isValidResponse data = false ->
    exists data',
      fetchLoop fetch urlIndex urls data false w
      = ((match firstValid fetch urlIndex urls with Some _ => true | None => false end,
          data'),
         {| rawData := rawData w; synonymsList := synonymsList w;
            lastCacheUpdate := lastCacheUpdate w;
            trace := trace w
                     ++ requests urlIndex
                          (firstn match firstValid fetch urlIndex urls with
                                  | Some (before, _) => S before
                                  | None => List.length urls
                                  end urls) |})
      /\ match firstValid fetch urlIndex urls with
         | Some (_, valid) => data' = valid
         | None => isValidResponse data' = false
         end.
Proof.
  induction urls as [|url rest IH]; intros urlIndex data w Hdata.
  - exists data. simpl. rewrite app_nil_r. split; [destruct w; reflexivity | exact Hdata].
  - cbn [fetchLoop firstValid]. unfold bind at 1. cbn [log].
    destruct (mirrorFails (fetch urlIndex url)) eqn:Hfail.
    + pose proof (mirrorFails_keeps_invalid _ data Hfail Hdata) as Hnext.
      rewrite Hnext.
      destruct (IH (S urlIndex)
                   match fetch urlIndex url with
                   | Parsed parsed => parsed
                   | Throws => data
                   end
                   (snd (log (StartFetching urlIndex url) w)) Hnext)
        as (data' & Hloop & Hdata').
      cbn [log snd] in Hloop. rewrite Hloop. exists data'.
      destruct (firstValid fetch (S urlIndex) rest) as [[before valid] |];
        cbn [rawData synonymsList lastCacheUpdate trace firstn requests];
        (split; [| exact Hdata']); rewrite <- app_assoc; reflexivity.
    + destruct (fetch urlIndex url) as [|parsed] eqn:Hfetch; [discriminate |].
      simpl in Hfail. apply negb_false_iff in Hfail. rewrite Hfail.
      exists parsed. unfold ret. cbn [firstn requests]. split; reflexivity.
Qed.

(** [getServerData], by the first valid mirror. *)
Lemma getServerData_run (fetch : nat -> string -> FetchOutcome Jcr) (now : string)
      (serverDataRequestConfig : option ServerDataRequestConfig) (w : World) :
  let urls := searchUrlsOf (getSearchUrl serverDataRequestConfig) in
  getServerData fetch now serverDataRequestConfig w
  = (tt,
     match firstValid fetch 0 urls with
     | Some (before, valid) =>
         {| rawData := match serverDataRequestConfig with
                       | None => []
                       | Some _ => rawData w
                       end ++ flatten (option_map requestType serverDataRequestConfig)
                                      (pathListOf valid);
            synonymsList := synonymsList w;
            lastCacheUpdate := Some {| time := now; status := Success |};
            trace := trace w ++ requests 0 (firstn (S before) urls) |}
     | None =>
         {| rawData := rawData w;
            synonymsList := synonymsList w;
            lastCacheUpdate := Some {| time := now; status := Error |};
            trace := trace w ++ requests 0 urls |}
     end).
Proof.
  intros urls. unfold getServerData. fold urls.
  destruct (fetchLoop_run fetch urls 0 None w eq_refl) as (data' & Hloop & Hdata').
  unfold bind. rewrite Hloop.
  destruct (firstValid fetch 0 urls) as [[before valid] |].
  - subst data'. destruct serverDataRequestConfig as [cfg |].
    + unfold ret. rewrite forEach_setUpData. reflexivity.
    + cbn [setRawData]. rewrite forEach_setUpData. reflexivity.
  - cbn [setLastCacheUpdate rawData synonymsList lastCacheUpdate trace].
    now rewrite firstn_all.
Qed.

Lemma requests_In (urls : list string) :
  forall (from i : nat) (url : string),
    In (StartFetching i url) (requests from urls) ->
    exists k, i = from + k /\ nth_error urls k = Some url.
Proof.
  induction urls as [|u rest IH]; intros from i url Hin; simpl in Hin.
  - contradiction.
  - destruct Hin as [Heq | Hin].
    + injection Heq as <- <-. exists 0. now rewrite Nat.add_0_r.
    + destruct (IH _ _ _ Hin) as (k & -> & Hk). exists (S k).
      now rewrite Nat.add_succ_r.
Qed.

Lemma nth_error_firstn_Some {A : Type} (l : list A) :
  forall (n k : nat) (x : A), nth_error (firstn n l) k = Some x -> nth_error l k = Some x.
Proof.
  induction l as [|y l IH]; intros n k x Hk.
  - rewrite firstn_nil in Hk. destruct k; discriminate.
  - destruct n as [|n]; [destruct k; discriminate |].
    destruct k as [|k]; simpl in *; [exact Hk | eapply IH, Hk].
Qed.

Lemma spread_length_one (s url : string) :
  In url (Js.spread s) -> String.length url = 1.
Proof.
  induction s as [|c s IH]; simpl; [contradiction |].
  intros [<- | Hin]; [reflexivity | exact (IH Hin)].
Qed.

(** X5. Every run of [getServerData] records an outcome with the time of
    the run; the outcome is [Success] exactly when some mirror of the list
    answers with a valid response; a failed run leaves the cache as it was;
    no run touches the synonym table, and the requests made are an initial
    part of the mirror list, in order. *)
Theorem getServerData_outcome :
  forall (fetch : nat -> string -> FetchOutcome Jcr) (now : string)
         (serverDataRequestConfig : option ServerDataRequestConfig) (w : World),
    let urls := searchUrlsOf (getSearchUrl serverDataRequestConfig) in
    let w' := snd (getServerData fetch now serverDataRequestConfig w) in
    exists (outcome : Status) (n : nat),
      lastCacheUpdate w' = Some {| time := now; status := outcome |}
      /\ (outcome = Success
          <-> exists i url data,
                nth_error urls i = Some url
                /\ fetch i url = Parsed data
                /\ isValidResponse data = true)
      /\ (outcome = Error -> rawData w' = rawData w)
      /\ synonymsList w' = synonymsList w
      /\ trace w' = trace w ++ requests 0 (firstn n urls).
Proof.
  intros fetch now cfg w urls w'. subst w'.
  rewrite (getServerData_run fetch now cfg w). fold urls. cbn [snd].
  destruct (firstValid fetch 0 urls) as [[before valid] |] eqn:Hfirst.
  - exists Success, (S before). cbn [lastCacheUpdate rawData synonymsList trace].
    split; [reflexivity |]. split; [| split; [discriminate | split; reflexivity]].
    split; [intros _ | reflexivity].
    destruct (firstValid_Some fetch urls 0 before valid Hfirst) as (url & Hu & Hf & Hv).
    exists before, url, valid. auto.
  - exists Error, (List.length urls). cbn [lastCacheUpdate rawData synonymsList trace].
    split; [reflexivity |].
    split; [| split; [reflexivity | split; [reflexivity | now rewrite firstn_all]]].
    split; [discriminate |].
    intros (i & url & data & Hu & Hf & Hv).
    pose proof (firstValid_None fetch urls 0 Hfirst i url Hu) as Hfail.
    simpl in Hfail. rewrite Hf in Hfail. simpl in Hfail. rewrite Hv in Hfail. discriminate.
Qed.

(** X6. A configured request never replaces: repeated with the same
    answers of the network it appends the same records again, behind the
    records of the first run; a full refresh repeated with the same answers
    gives the same cache again, whatever the cache was. *)
Theorem getServerData_repeated :
  forall (fetch : nat -> string -> FetchOutcome Jcr) (now again : string)
         (config : ServerDataRequestConfig) (w other : World),
    let added :=
      match firstValid fetch 0 (searchUrlsOf (getSearchUrl (Some config))) with
      | Some (_, valid) => flatten (Some (requestType config)) (pathListOf valid)
      | None => []
      end in
    let once := snd (getServerData fetch now (Some config) w) in
    let twice := snd (getServerData fetch again (Some config) once) in
    rawData once = rawData w ++ added
    /\ rawData twice = rawData w ++ added ++ added
    /\ rawData (snd (getServerData fetch again None
                                   (snd (getServerData fetch now None w))))
       = rawData (snd (getServerData fetch now None w))
    /\ (firstValid fetch 0 (searchUrlsOf (getSearchUrl None)) <> None ->
        rawData (snd (getServerData fetch now None w))
        = rawData (snd (getServerData fetch now None other))).
Proof.
  intros fetch now again config w other added once twice.
  subst once twice added.
  rewrite !getServerData_run. cbn [snd option_map].
  split; [| split; [| split]].
  - destruct (firstValid fetch 0 _) as [[before valid] |]; cbn [rawData];
      [reflexivity | now rewrite app_nil_r].
  - destruct (firstValid fetch 0 _) as [[before valid] |]; cbn [rawData];
      [now rewrite app_assoc | now rewrite app_nil_r].
  - destruct (firstValid fetch 0 _) as [[before valid] |]; reflexivity.
  - intros Hvalid.
    destruct (firstValid fetch 0 _) as [[before valid] |]; [reflexivity | congruence].
Qed.

(** X7. When [getSearchUrl] returns a single string, the requests go to
    the code units of that string, one request per code unit: every URL
    requested is one code unit long, so an address of two or more code
    units is itself never requested. *)
Theorem getServerData_single_url :
  forall (fetch : nat -> string -> FetchOutcome Jcr) (now : string)
         (serverDataRequestConfig : option ServerDataRequestConfig) (w : World)
         (address : string),
    getSearchUrl serverDataRequestConfig = OneUrl address ->
    exists events,
      trace (snd (getServerData fetch now serverDataRequestConfig w))
      = trace w ++ events
      /\ (forall i url,
             In (StartFetching i url) events ->
             String.length url = 1 /\ nth_error (Js.spread address) i = Some url)
      /\ (2 <= String.length address -> forall i, ~ In (StartFetching i address) events).
Proof.
  intros fetch now cfg w address Haddress.
  rewrite (getServerData_run fetch now cfg w). rewrite Haddress. cbn [searchUrlsOf snd].
  assert (Hevents : forall n i url,
             In (StartFetching i url) (requests 0 (firstn n (Js.spread address))) ->
             String.length url = 1 /\ nth_error (Js.spread address) i = Some url).
  { intros n i url Hin. apply requests_In in Hin. destruct Hin as (k & -> & Hk).
    apply nth_error_firstn_Some in Hk. simpl. split; [| exact Hk].
    apply (spread_length_one address). eapply nth_error_In, Hk. }
  destruct (firstValid fetch 0 (Js.spread address)) as [[before valid] |].
  - exists (requests 0 (firstn (S before) (Js.spread address))). cbn [trace].
    split; [reflexivity |]. split; [apply Hevents |].
    intros Hlong i Hin. apply Hevents in Hin. lia.
  - exists (requests 0 (firstn (List.length (Js.spread address)) (Js.spread address))).
    cbn [trace]. rewrite firstn_all.
    split; [reflexivity |]. split.
    + intros i url Hin. apply (Hevents (List.length (Js.spread address))).
      now rewrite firstn_all.
    + intros Hlong i Hin.
      assert (Hone : String.length address = 1).
      { apply (Hevents (List.length (Js.spread address)) i). now rewrite firstn_all. }
      lia.
Qed.

(** X8. The route [/lastCacheUpdate] with the trigger enabled: after a run
    of [getServerData] it reports the time and the outcome of that run; on a
    service that has not completed a refresh the handler throws; with the
    trigger disabled it answers that the update is disabled; it never
    changes the service. *)
Theorem lastCacheUpdateRoute_after_refresh :
  forall (fetch : nat -> string -> FetchOutcome Jcr) (now : string)
         (serverDataRequestConfig : option ServerDataRequestConfig) (w : World),
    let w' := snd (getServerData fetch now serverDataRequestConfig w) in
    fst (lastCacheUpdateRoute true w')
    = Sent ("Last cache update at: " ++ now ++ " - Status: "
            ++ match firstValid fetch 0
                                (searchUrlsOf (getSearchUrl serverDataRequestConfig)) with
               | Some _ => "Success"
               | None => "Error"
               end)%string
    /\ (lastCacheUpdate w = None -> fst (lastCacheUpdateRoute true w) = HandlerThrows)
    /\ fst (lastCacheUpdateRoute false w) = Sent "Manual cache update disabled"
    /\ forall enabled, snd (lastCacheUpdateRoute enabled w) = w.
Proof.
  intros fetch now cfg w w'. subst w'.
  rewrite (getServerData_run fetch now cfg w). cbn [snd].
  split; [| split; [| split]].
  - unfold lastCacheUpdateRoute. cbn [fst].
    destruct (firstValid fetch 0 _) as [[before valid] |]; reflexivity.
  - intros Hnone. unfold lastCacheUpdateRoute. cbn [fst]. now rewrite Hnone.
  - reflexivity.
  - reflexivity.
Qed.

Lemma contributed_app (qualifies : RawServerData Jcr -> bool) (tag : option AEMTypes)
      (first second : list (RawServerData Jcr)) :
  contributed qualifies tag (first ++ second)
  = contributed qualifies tag first ++ contributed qualifies tag second.
Proof. unfold contributed. now rewrite flat_map_app, filter_app, map_app. Qed.

(** X9. [setUpData] only appends: the cache it finds stays in front,
    unchanged; the cache grows by the number of nodes whose [children] is
    present; and flattening two forests one after the other is flattening
    their concatenation. *)
Theorem setUpData_appends :
  forall (w : World) (tag : option AEMTypes) (first second : list (RawServerData Jcr)),
    let w' := snd (setUpData (Some first) tag w) in
    firstn (List.length (rawData w)) (rawData w') = rawData w
    /\ List.length (rawData w') = List.length (rawData w) + containers first
    /\ containers first <= List.length (flat_map preorder first)
    /\ snd (setUpData (Some second) tag w') = snd (setUpData (Some (first ++ second)) tag w).
Proof.
  intros w tag first second w'. subst w'.
  rewrite !setUpData_rawData. cbn [snd rawData synonymsList lastCacheUpdate trace].
  split; [| split; [| split]].
  - rewrite firstn_app, Nat.sub_diag, firstn_all. cbn [firstn]. now rewrite app_nil_r.
  - rewrite length_app. unfold contributed, containers. now rewrite length_map.
  - unfold containers. apply filter_length_le.
  - rewrite contributed_app, app_assoc. reflexivity.
Qed.

End RefreshRuns.

(** ** What a query does to the service, and what it answers *)

Section QueryEffects.
Context `{Integrator}.

Lemma getSynonyms_table (word : string) (w w' : World) :
  synonymsList w = synonymsList w' ->
  fst (getSynonyms word w) = fst (getSynonyms word w').
Proof. intros Htable. unfold getSynonyms. cbn [fst]. now rewrite Htable. Qed.

Lemma getSearchRank_unranked_same (searchModel : CommonSearchModel Content)
      (searchWithSynonyms : list string) (searchWord : string) (partialMatch : bool) :
  unranked (getSearchRank searchModel searchWithSynonyms searchWord partialMatch)
  = unranked searchModel.
Proof.
  unfold unranked.
  destruct (getSearchRank_content searchModel searchWithSynonyms searchWord partialMatch)
    as [-> ->].
  reflexivity.
Qed.

(** One scoring pass: what it keeps and what it answers. *)
Lemma searchForSingleWord_keeps (word : string) (partialMatch : bool) (w : World) :
  let answer := fst (searchForSingleWord word partialMatch w) in
  let w' := snd (searchForSingleWord word partialMatch w) in
  map unranked (rawData w') = map unranked (rawData w)
  /\ synonymsList w' = synonymsList w
  /\ lastCacheUpdate w' = lastCacheUpdate w
  /\ incl (results answer) (rawData w')
  /\ List.length (results answer) <= List.length (rawData w')
  /\ foundItems answer = List.length (results answer)
  /\ search answer = Js.toString (fst (getSynonyms word w)).
Proof.
  destruct word as [|c word'].
  - rewrite searchForSingleWord_empty. cbn [fst snd results rawData foundItems search].
    repeat split; try reflexivity. apply incl_refl.
  - rewrite searchForSingleWord_scores by reflexivity.
    cbn [fst snd results rawData foundItems search synonymsList lastCacheUpdate].
    repeat split; try reflexivity.
    + rewrite map_map. apply map_ext. intros r. apply getSearchRank_unranked_same.
    + intros r Hr. apply (Permutation_in _ (sortDesc_perm rankOf _)) in Hr.
      apply filter_In in Hr. apply Hr.
    + rewrite sortDesc_length. apply filter_length_le.
Qed.

Lemma secondLevelSearch_keeps (tokens : list string) :
  forall w : World,
    let w' := snd (secondLevelSearch tokens w) in
    map unranked (rawData w') = map unranked (rawData w)
    /\ synonymsList w' = synonymsList w
    /\ lastCacheUpdate w' = lastCacheUpdate w
    /\ match fst (secondLevelSearch tokens w) with
       | Some answer =>
           incl (results answer) (rawData w')
           /\ List.length (results answer) <= List.length (rawData w')
           /\ foundItems answer = List.length (results answer)
           /\ exists token, In token tokens
                            /\ search answer = Js.toString (fst (getSynonyms token w))
       | None => True
       end.
Proof.
  induction tokens as [|token rest IH]; intros w.
  - simpl. repeat split.
  - cbn [secondLevelSearch]. unfold bind.
    pose proof (searchForSingleWord_keeps token false w) as Hpass.
    destruct (searchForSingleWord token false w) as [second w1].
    cbn [fst snd] in Hpass. destruct Hpass as (Hu & Hs & Hl & Hincl & Hle & Hn & Hlabel).
    destruct (0 <? foundItems second)%nat.
    + unfold ret. cbn [fst snd]. repeat split; try assumption.
      exists token. split; [now left | exact Hlabel].
    + specialize (IH w1). cbv zeta in IH.
      destruct (secondLevelSearch rest w1) as [[answer |] w2]; cbn [fst snd] in *.
      * destruct IH as (Hu' & Hs' & Hl' & Hincl' & Hle' & Hn' & token' & Hin' & Hlabel').
        repeat split; try congruence; try assumption.
        exists token'. split; [now right |].
        rewrite Hlabel'. f_equal. apply getSynonyms_table. exact Hs.
      * destruct IH as (Hu' & Hs' & Hl' & _). repeat split; congruence.
Qed.

(** What a query keeps and what shape its answer has, in one statement. *)
Lemma getSearchResult_keeps (raw : string) (w : World) :
  Js.truthy raw = true ->
  let answer := fst (getSearchResult (Some raw) w) in
  let w' := snd (getSearchResult (Some raw) w) in
  map unranked (rawData w') = map unranked (rawData w)
  /\ synonymsList w' = synonymsList w
  /\ lastCacheUpdate w' = lastCacheUpdate w
  /\ incl (results answer) (rawData w')
  /\ List.length (results answer) <= List.length (rawData w')
  /\ foundItems answer = List.length (results answer)
  /\ exists token,
       (token = normalize raw \/ In token (Js.split (normalize raw)))
       /\ search answer = Js.toString (fst (getSynonyms token w)).
Proof.
  intros Hraw. rewrite (getSearchResult_unfold raw w Hraw). cbv zeta.
  pose proof (searchForSingleWord_keeps (normalize raw) false w) as Hfirst.
  destruct (searchForSingleWord (normalize raw) false w) as [first w1].
  cbn [fst snd] in Hfirst. destruct Hfirst as (Hu & Hs & Hl & Hincl & Hle & Hn & Hlabel).
  assert (Hthird : forall w2 : World,
             map unranked (rawData w2) = map unranked (rawData w) ->
             synonymsList w2 = synonymsList w ->
             lastCacheUpdate w2 = lastCacheUpdate w ->
             let answer := fst (searchForSingleWord (normalize raw) true w2) in
             let w' := snd (searchForSingleWord (normalize raw) true w2) in
             map unranked (rawData w') = map unranked (rawData w)
             /\ synonymsList w' = synonymsList w
             /\ lastCacheUpdate w' = lastCacheUpdate w
             /\ incl (results answer) (rawData w')
             /\ List.length (results answer) <= List.length (rawData w')
             /\ foundItems answer = List.length (results answer)
             /\ exists token,
                  (token = normalize raw \/ In token (Js.split (normalize raw)))
                  /\ search answer = Js.toString (fst (getSynonyms token w))).
  { intros w2 Hu2 Hs2 Hl2.
    pose proof (searchForSingleWord_keeps (normalize raw) true w2) as Hpass.
    cbv zeta in *. destruct Hpass as (Hu3 & Hs3 & Hl3 & Hincl3 & Hle3 & Hn3 & Hlabel3).
    repeat split; try congruence; try assumption.
    exists (normalize raw). split; [now left |].
    rewrite Hlabel3. f_equal. apply getSynonyms_table. exact Hs2. }
  destruct ((foundItems first =? 0)%nat && (1 <? List.length (Js.split (normalize raw)))%nat)
    eqn:Econd.
  - apply andb_true_iff in Econd. destruct Econd as [Ezero _].
    apply Nat.eqb_eq in Ezero.
    assert (Elen : (List.length (results first) =? 0)%nat = true)
      by (apply Nat.eqb_eq; congruence).
    rewrite Elen.
    pose proof (secondLevelSearch_keeps (secondSearchTerm (normalize raw)) w1) as Hsecond.
    cbv zeta in Hsecond.
    destruct (secondLevelSearch (secondSearchTerm (normalize raw)) w1)
      as [[answer |] w2]; cbn [fst snd] in Hsecond.
    + destruct Hsecond as (Hu2 & Hs2 & Hl2 & Hincl2 & Hle2 & Hn2 & token & Hin & Hlabel2).
      cbn [fst snd]. repeat split; try congruence; try assumption.
      exists token. split.
      * right. eapply Permutation_in; [apply sortDesc_perm | exact Hin].
      * rewrite Hlabel2. f_equal. apply getSynonyms_table. exact Hs.
    + destruct Hsecond as (Hu2 & Hs2 & Hl2 & _).
      apply (Hthird w2); congruence.
  - destruct (List.length (results first) =? 0)%nat.
    + apply (Hthird w1); assumption.
    + cbn [fst snd]. repeat split; try assumption.
      exists (normalize raw). split; [now left | exact Hlabel].
Qed.

(** X10. A query never changes what the cache holds: the records, their
    order, their content and their type tags are the same after the query,
    only the ranks may differ; the synonym table and the recorded refresh
    outcome are untouched. *)
Theorem getSearchResult_keeps_cache :
  forall (query : option string) (w : World),
    let w' := snd (getSearchResult query w) in
    map content (rawData w') = map content (rawData w)
    /\ map type (rawData w') = map type (rawData w)
    /\ List.length (rawData w') = List.length (rawData w)
    /\ synonymsList w' = synonymsList w
    /\ lastCacheUpdate w' = lastCacheUpdate w.
Proof.
  intros query w w'.
  assert (Hkept : map unranked (rawData w') = map unranked (rawData w)
                  /\ synonymsList w' = synonymsList w
                  /\ lastCacheUpdate w' = lastCacheUpdate w).
  { subst w'. destruct query as [raw |]; [| repeat split].
    destruct (Js.truthy raw) eqn:Hraw.
    - destruct (getSearchResult_keeps raw w Hraw) as (Hu & Hs & Hl & _). auto.
    - unfold getSearchResult. rewrite Hraw. repeat split. }
  destruct Hkept as (Hu & Hs & Hl).
  assert (Hc : map content (rawData w') = map content (rawData w)).
  { apply (f_equal (map fst)) in Hu. rewrite !map_map in Hu. exact Hu. }
  split; [exact Hc |]. split; [| split; [| split; assumption]].
  - apply (f_equal (map snd)) in Hu. rewrite !map_map in Hu. exact Hu.
  - rewrite <- (length_map content (rawData w')), Hc. apply length_map.
Qed.

(** X11. The shape of every answer: [foundItems] is the number of results
    and at most the size of the cache, every result is a record of the
    cache as the query leaves it, and the label is [not-definied] for a
    missing or empty query and otherwise the comma-joined synonym list of
    the whole normalised query or of one of its tokens. *)
Theorem getSearchResult_answer_shape :
  forall (query : option string) (w : World),
    let answer := fst (getSearchResult query w) in
    let w' := snd (getSearchResult query w) in
    foundItems answer = List.length (results answer)
    /\ foundItems answer <= List.length (rawData w)
    /\ incl (results answer) (rawData w')
    /\ match query with
       | Some (String c raw') =>
           exists token,
             (token = normalize (String c raw')
              \/ In token (Js.split (normalize (String c raw'))))
             /\ search answer = Js.toString (fst (getSynonyms token w))
       | _ => search answer = "not-definied"
       end.
Proof.
  intros query w answer w'. subst answer w'.
  destruct query as [[|c raw'] |]; try (repeat split; [apply Nat.le_0_l | intros r []]).
  destruct (getSearchResult_keeps (String c raw') w eq_refl)
    as (Hu & _ & _ & Hincl & Hle & Hn & Hlabel).
  repeat split; try assumption.
  rewrite Hn. apply (f_equal (@List.length _)) in Hu. rewrite !length_map in Hu. lia.
Qed.

Lemma allWhiteSpace_trimStart (s : string) :
  Js.allWhiteSpace s = true -> Js.trimStart s = EmptyString.
Proof.
  induction s as [|c s IH]; simpl; [reflexivity |].
  intros Hall. apply andb_true_iff in Hall. destruct Hall as [-> Hrest]. now apply IH.
Qed.

Lemma allWhiteSpace_normalize (raw : string) :
  Js.allWhiteSpace raw = true -> normalize raw = EmptyString.
Proof.
  intros Hall. unfold normalize, Js.trim. now rewrite (allWhiteSpace_trimStart raw Hall).
Qed.

(** A query that is nothing after normalisation. *)
Lemma getSearchResult_nothing (raw : string) (w : World) :
  Js.truthy raw = true ->
  normalize raw = EmptyString ->
  getSearchResult (Some raw) w
  = ({| search := Js.toString (fst (getSynonyms "" w));
        foundItems := List.length (rawData w); results := rawData w |},
     {| rawData := rawData w; synonymsList := synonymsList w;
        lastCacheUpdate := lastCacheUpdate w;
        trace := trace w ++ SearchPass "" false
                       :: match rawData w with
                          | [] => [SearchPass "" true]
                          | _ :: _ => []
                          end |}).
Proof.
  intros Hraw Hnothing. rewrite (getSearchResult_unfold raw w Hraw). cbv zeta.
  rewrite Hnothing, searchForSingleWord_empty. cbn [foundItems results Js.split].
  rewrite andb_false_r.
  destruct (rawData w) as [|r cache] eqn:Hcache.
  - cbn [List.length Nat.eqb]. rewrite searchForSingleWord_empty.
    cbn [rawData synonymsList lastCacheUpdate trace]. rewrite <- app_assoc. reflexivity.
  - cbn [List.length Nat.eqb]. reflexivity.
Qed.

(** X12. A query of white space only is not the empty query: it is
    answered with the whole cache, untouched and in cache order, under the
    label of the empty word; no record is scored, so the records carry
    whatever ranks earlier queries left. *)
Theorem getSearchResult_white_space :
  forall (raw : string) (w : World),
    Js.truthy raw = true ->
    Js.allWhiteSpace raw = true ->
    let answer := fst (getSearchResult (Some raw) w) in
    let w' := snd (getSearchResult (Some raw) w) in
    results answer = rawData w
    /\ foundItems answer = List.length (rawData w)
    /\ search answer = Js.toString (fst (getSynonyms "" w))
    /\ rawData w' = rawData w
    /\ forall word partialMatch,
         In (SearchPass word partialMatch) (trace w') ->
         In (SearchPass word partialMatch) (trace w) \/ word = EmptyString.
Proof.
  intros raw w Hraw Hall answer w'. subst answer w'.
  rewrite (getSearchResult_nothing raw w Hraw (allWhiteSpace_normalize raw Hall)).
  cbn [fst snd results foundItems search rawData trace].
  repeat split.
  intros word partialMatch Hin. apply in_app_iff in Hin.
  destruct Hin as [Hin | [Heq | Hin]]; [now left | right; congruence |].
  destruct (rawData w); [| contradiction].
  destruct Hin as [Heq | []]. right. congruence.
Qed.

Lemma normalize_idempotent (raw : string) : normalize (normalize raw) = normalize raw.
Proof.
  unfold normalize.
  now rewrite trim_toLowerCase, toLowerCase_idempotent, trim_idempotent.
Qed.

(** X13. Queries are compared after normalisation: two non-empty queries
    that trim and lower-case to the same string get the same answer and
    leave the service in the same state; in particular a query is answered
    like its own normalised form, and normalising twice changes nothing. *)
Theorem getSearchResult_normalized :
  forall (raw other : string) (w : World),
    Js.truthy raw = true ->
    Js.truthy other = true ->
    normalize raw = normalize other ->
    getSearchResult (Some raw) w = getSearchResult (Some other) w
    /\ normalize (normalize raw) = normalize raw
    /\ (Js.truthy (normalize raw) = true ->
        getSearchResult (Some (normalize raw)) w = getSearchResult (Some raw) w).
Proof.
  intros raw other w Hraw Hother Hsame. split; [| split].
  - rewrite (getSearchResult_unfold raw w Hraw), (getSearchResult_unfold other w Hother).
    now rewrite Hsame.
  - apply normalize_idempotent.
  - intros Hword.
    rewrite (getSearchResult_unfold raw w Hraw),
      (getSearchResult_unfold (normalize raw) w Hword).
    now rewrite normalize_idempotent.
Qed.

End QueryEffects.

(** ** Answers and the history of the service *)

Section History.
Context `{Integrator}.

Lemma getSearchRank_ignores_rank (first second : CommonSearchModel Content)
      (searchWithSynonyms : list string) (searchWord : string) (partialMatch : bool) :
  criteriaIgnoreRank ->
  unranked first = unranked second ->
  getSearchRank first searchWithSynonyms searchWord partialMatch
  = getSearchRank second searchWithSynonyms searchWord partialMatch.
Proof.
  intros Hignore Hsame. unfold unranked in Hsame. injection Hsame as Hc Ht.
  assert (Hzero : setSearchRank first (Some 0%Z) = setSearchRank second (Some 0%Z)).
  { unfold setSearchRank. now rewrite Hc, Ht. }
  unfold getSearchRank.
  rewrite <- (Hignore first (Some 0%Z)), <- (Hignore second (Some 0%Z)), Hzero.
  reflexivity.
Qed.

Lemma map_getSearchRank_ignores_rank (searchWithSynonyms : list string)
      (searchWord : string) (partialMatch : bool) :
  criteriaIgnoreRank ->
  forall first second : list (CommonSearchModel Content),
    map unranked first = map unranked second ->
    map (fun r => getSearchRank r searchWithSynonyms searchWord partialMatch) first
    = map (fun r => getSearchRank r searchWithSynonyms searchWord partialMatch) second.
Proof.
  intros Hignore first. induction first as [|r first IH]; intros [|r' second] Hsame;
    try discriminate; [reflexivity |].
  cbn [map] in Hsame.
  assert (Hr : unranked r = unranked r')
    by exact (f_equal (fun l => hd (unranked r) l) Hsame).
  assert (Hrest : map unranked first = map unranked second)
    by exact (f_equal (@tl _) Hsame).
  cbn [map]. f_equal.
  - apply getSearchRank_ignores_rank; assumption.
  - apply IH; assumption.
Qed.

(** A scoring pass does not see the ranks it finds. *)
Lemma searchForSingleWord_ignores_rank (word : string) (partialMatch : bool)
      (w other : World) :
  criteriaIgnoreRank ->
  Js.truthy word = true ->
  map unranked (rawData w) = map unranked (rawData other) ->
  synonymsList w = synonymsList other ->
  fst (searchForSingleWord word partialMatch w)
  = fst (searchForSingleWord word partialMatch other)
  /\ rawData (snd (searchForSingleWord word partialMatch w))
     = rawData (snd (searchForSingleWord word partialMatch other))
  /\ synonymsList (snd (searchForSingleWord word partialMatch w))
     = synonymsList (snd (searchForSingleWord word partialMatch other)).
Proof.
  intros Hignore Hword Hsame Htable.
  rewrite !(searchForSingleWord_scores word partialMatch) by exact Hword.
  cbn [fst snd rawData synonymsList].
  rewrite (getSynonyms_table word w other Htable).
  rewrite (map_getSearchRank_ignores_rank _ word partialMatch Hignore _ _ Hsame).
  repeat split. exact Htable.
Qed.

(** A scoring pass sees the service through its cache and its table. *)
Lemma searchForSingleWord_same (word : string) (partialMatch : bool) (w other : World) :
  rawData w = rawData other ->
  synonymsList w = synonymsList other ->
  fst (searchForSingleWord word partialMatch w)
  = fst (searchForSingleWord word partialMatch other)
  /\ rawData (snd (searchForSingleWord word partialMatch w))
     = rawData (snd (searchForSingleWord word partialMatch other))
  /\ synonymsList (snd (searchForSingleWord word partialMatch w))
     = synonymsList (snd (searchForSingleWord word partialMatch other)).
Proof.
  intros Hcache Htable. destruct word as [|c word'].
  - rewrite !searchForSingleWord_empty. cbn [fst snd rawData synonymsList].
    rewrite (getSynonyms_table "" w other Htable), Hcache. repeat split. exact Htable.
  - rewrite !(searchForSingleWord_scores (String c word') partialMatch) by reflexivity.
    cbn [fst snd rawData synonymsList].
    rewrite (getSynonyms_table _ w other Htable), Hcache. repeat split. exact Htable.
Qed.

Lemma secondLevelSearch_same (tokens : list string) :
  forall w other : World,
    rawData w = rawData other ->
    synonymsList w = synonymsList other ->
    fst (secondLevelSearch tokens w) = fst (secondLevelSearch tokens other)
    /\ rawData (snd (secondLevelSearch tokens w))
       = rawData (snd (secondLevelSearch tokens other))
    /\ synonymsList (snd (secondLevelSearch tokens w))
       = synonymsList (snd (secondLevelSearch tokens other)).
Proof.
  induction tokens as [|token rest IH]; intros w other Hcache Htable.
  - simpl. auto.
  - cbn [secondLevelSearch]. unfold bind.
    destruct (searchForSingleWord_same token false w other Hcache Htable)
      as (Hanswer & Hcache' & Htable').
    destruct (searchForSingleWord token false w) as [second w1].
    destruct (searchForSingleWord token false other) as [second' other1].
    cbn [fst snd] in *. subst second'.
    destruct (0 <? foundItems second)%nat.
    + unfold ret. cbn [fst snd]. auto.
    + apply IH; assumption.
Qed.

(** The rest of a query behind its first pass. *)
Lemma getSearchResult_same_after_first (raw : string) (w other : World) :
  Js.truthy raw = true ->
  fst (searchForSingleWord (normalize raw) false w)
  = fst (searchForSingleWord (normalize raw) false other) ->
  rawData (snd (searchForSingleWord (normalize raw) false w))
  = rawData (snd (searchForSingleWord (normalize raw) false other)) ->
  synonymsList (snd (searchForSingleWord (normalize raw) false w))
  = synonymsList (snd (searchForSingleWord (normalize raw) false other)) ->
  fst (getSearchResult (Some raw) w) = fst (getSearchResult (Some raw) other)
  /\ rawData (snd (getSearchResult (Some raw) w))
     = rawData (snd (getSearchResult (Some raw) other)).
Proof.
  intros Hraw Hanswer Hcache Htable.
  rewrite !(getSearchResult_unfold raw) by exact Hraw. cbv zeta.
  destruct (searchForSingleWord (normalize raw) false w) as [first w1].
  destruct (searchForSingleWord (normalize raw) false other) as [first' other1].
  cbn [fst snd] in *. subst first'.
  destruct ((foundItems first =? 0)%nat && (1 <? List.length (Js.split (normalize raw)))%nat).
  - destruct (secondLevelSearch_same (secondSearchTerm (normalize raw)) w1 other1
                                     Hcache Htable) as (Hsecond & Hcache2 & Htable2).
    destruct (secondLevelSearch (secondSearchTerm (normalize raw)) w1) as [returned w2].
    destruct (secondLevelSearch (secondSearchTerm (normalize raw)) other1)
      as [returned' other2].
    cbn [fst snd] in *. subst returned'.
    destruct returned as [secondLevel |]; [cbn [fst snd]; auto |].
    destruct (List.length (results first) =? 0)%nat; [| cbn [fst snd]; auto].
    destruct (searchForSingleWord_same (normalize raw) true w2 other2 Hcache2 Htable2)
      as (H1 & H2 & _). auto.
  - destruct (List.length (results first) =? 0)%nat; [| cbn [fst snd]; auto].
    destruct (searchForSingleWord_same (normalize raw) true w1 other1 Hcache Htable)
      as (H1 & H2 & _). auto.
Qed.

Lemma getSearchResult_ignores_rank (raw : string) (w other : World) :
  criteriaIgnoreRank ->
  Js.truthy (normalize raw) = true ->
  map unranked (rawData w) = map unranked (rawData other) ->
  synonymsList w = synonymsList other ->
  fst (getSearchResult (Some raw) w) = fst (getSearchResult (Some raw) other)
  /\ rawData (snd (getSearchResult (Some raw) w))
     = rawData (snd (getSearchResult (Some raw) other)).
Proof.
  intros Hignore Hword Hsame Htable.
  destruct (searchForSingleWord_ignores_rank (normalize raw) false w other
                                             Hignore Hword Hsame Htable)
    as (Hanswer & Hcache & Htable').
  apply getSearchResult_same_after_first; try assumption.
  apply truthy_normalize, Hword.
Qed.

(** X14. When the criteria of a record do not depend on its rank, the
    answer to a query that is not empty after normalisation depends on the
    contents and type tags of the cached records and on the synonym table
    only: the ranks, the trace and the refresh outcome that earlier
    operations left behind have no influence on it. *)
Theorem getSearchResult_history_independent :
  forall (raw : string) (w other : World),
    criteriaIgnoreRank ->
    Js.truthy (normalize raw) = true ->
    map content (rawData w) = map content (rawData other) ->
    map type (rawData w) = map type (rawData other) ->
    synonymsList w = synonymsList other ->
    fst (getSearchResult (Some raw) w) = fst (getSearchResult (Some raw) other)
    /\ rawData (snd (getSearchResult (Some raw) w))
       = rawData (snd (getSearchResult (Some raw) other)).
Proof.
  intros raw w other Hignore Hword Hcontent Htype Htable.
  apply getSearchResult_ignores_rank; try assumption.
  clear - Hcontent Htype. revert Hcontent Htype.
  generalize (rawData other). induction (rawData w) as [|r cache IH];
    intros [|r' cache'] Hcontent Htype; try discriminate; [reflexivity |].
  simpl in *. injection Hcontent as Hc Hcs. injection Htype as Ht Hts.
  unfold unranked at 1 3. rewrite Hc, Ht. f_equal. now apply IH.
Qed.

(** X15. Under the same condition, asking the same query twice in a row
    gives the same answer twice, the same number of items and the same
    results in the same order, and leaves the same cache. *)
Theorem getSearchResult_idempotent :
  forall (query : option string) (w : World),
    criteriaIgnoreRank ->
    let once := getSearchResult query w in
    let twice := getSearchResult query (snd once) in
    fst twice = fst once
    /\ rawData (snd twice) = rawData (snd once).
Proof.
  intros query w Hignore once twice. subst once twice.
  destruct query as [raw |]; [| split; reflexivity].
  destruct (Js.truthy raw) eqn:Hraw;
    [| unfold getSearchResult; rewrite Hraw; split; reflexivity].
  destruct (Js.truthy (normalize raw)) eqn:Hword.
  - destruct (getSearchResult_keeps raw w Hraw) as (Hu & Hs & _).
    apply getSearchResult_ignores_rank; assumption.
  - apply not_truthy in Hword.
    assert (Hcache : rawData (snd (getSearchResult (Some raw) w)) = rawData w)
      by (rewrite (getSearchResult_nothing raw w Hraw Hword); reflexivity).
    assert (Htable : synonymsList (snd (getSearchResult (Some raw) w)) = synonymsList w)
      by (rewrite (getSearchResult_nothing raw w Hraw Hword); reflexivity).
    apply getSearchResult_same_after_first; try assumption;
      apply searchForSingleWord_same; assumption.
Qed.

End History.

(** ** Which records are found *)

Section Found.
Context `{Integrator}.

(** A positive integer is held by a positive number. *)
Lemma toNumber_positive (z : Z) : (0 < z)%Z -> (0 < Js.toNumber z)%Z.
Proof.
  intros Hz. unfold Js.toNumber. cbv zeta.
  rewrite (Z.abs_eq z) by lia.
  destruct (z <=? 2 ^ 53)%Z eqn:Hsmall; [exact Hz |].
  apply Z.leb_gt in Hsmall.
  rewrite (Z.sgn_pos z Hz), Z.mul_1_l.
  assert (Hlog : (53 <= Z.log2 z)%Z).
  { apply Z.log2_le_pow2; lia. }
  set (e := (Z.log2 z - 52)%Z).
  assert (He : (0 < 2 ^ e)%Z) by (apply Z.pow_pos_nonneg; unfold e; lia).
  assert (Hq : (0 < z / 2 ^ e)%Z).
  { apply Z.div_str_pos. split; [exact He |].
    apply Z.le_trans with (2 ^ Z.log2 z)%Z.
    - apply Z.pow_le_mono_r; unfold e; lia.
    - apply Z.log2_spec. exact Hz. }
  destruct ((2 ^ (e - 1) <? z mod 2 ^ e)%Z
            || ((z mod 2 ^ e =? 2 ^ (e - 1))%Z && Z.odd (z / 2 ^ e))); nia.
Qed.

Lemma addNumber_positive (a x : Z) : (0 <= a)%Z -> (0 < x)%Z -> (0 < Js.addNumber a x)%Z.
Proof. intros Ha Hx. unfold Js.addNumber. apply toNumber_positive. lia. Qed.

Lemma addHit_found (searchWithSynonyms : list string) (searchWord : string)
      (partialMatch : bool) (a : Z) (el : SearchRankModel) :
  (0 < rank el)%Z -> (0 < synonymRank el)%Z -> (0 <= a)%Z ->
  (0 <= addHit searchWithSynonyms searchWord partialMatch a el)%Z
  /\ (0 <? addHit searchWithSynonyms searchWord partialMatch a el)%Z
     = (0 <? a)%Z || fieldFound searchWithSynonyms searchWord partialMatch el.
Proof.
  intros Hrank Hsynonym Ha. unfold addHit, fieldHit, fieldFound.
  destruct (found _); [destruct (synonym _) |].
  - pose proof (addNumber_positive a (synonymRank el) Ha Hsynonym) as Hpos.
    split; [lia |]. rewrite orb_true_r. apply Z.ltb_lt. exact Hpos.
  - pose proof (addNumber_positive a (rank el) Ha Hrank) as Hpos.
    split; [lia |]. rewrite orb_true_r. apply Z.ltb_lt. exact Hpos.
  - split; [exact Ha |]. rewrite orb_false_r. reflexivity.
Qed.

Lemma fold_addHit_found (searchWithSynonyms : list string) (searchWord : string)
      (partialMatch : bool) (criteria : list SearchRankModel) :
  Forall (fun el => (0 < rank el)%Z /\ (0 < synonymRank el)%Z) criteria ->
  forall a : Z,
    (0 <= a)%Z ->
    (0 <= fold_left (addHit searchWithSynonyms searchWord partialMatch) criteria a)%Z
    /\ (0 <? fold_left (addHit searchWithSynonyms searchWord partialMatch) criteria a)%Z
       = (0 <? a)%Z
         || existsb (fieldFound searchWithSynonyms searchWord partialMatch) criteria.
Proof.
  induction 1 as [|el criteria [Hrank Hsynonym] _ IH]; intros a Ha; simpl.
  - split; [exact Ha |]. rewrite orb_false_r. reflexivity.
  - destruct (addHit_found searchWithSynonyms searchWord partialMatch a el
                           Hrank Hsynonym Ha) as [Hle Heq].
    destruct (IH _ Hle) as [IHle IHeq].
    split; [exact IHle |]. rewrite IHeq, Heq, orb_assoc. reflexivity.
Qed.

Lemma hasPositiveRank_found (searchModel : CommonSearchModel Content)
      (searchWithSynonyms : list string) (searchWord : string) (partialMatch : bool) :
  positiveWeights searchModel ->
  hasPositiveRank (getSearchRank searchModel searchWithSynonyms searchWord partialMatch)
  = existsb (fieldFound searchWithSynonyms searchWord partialMatch) (criteriaOf searchModel)
  /\ (0 <= rankOf (getSearchRank searchModel searchWithSynonyms searchWord partialMatch))%Z.
Proof.
  intros Hweights. unfold hasPositiveRank, rankOf. rewrite getSearchRank_rank.
  destruct (fold_addHit_found searchWithSynonyms searchWord partialMatch
                              (criteriaOf searchModel) Hweights 0%Z (Z.le_refl 0))
    as [Hle Heq].
  split; assumption.
Qed.

(** X16. When every weight of a record's criteria is positive, scoring
    gives the record a positive rank exactly when one of its ranked fields
    matches, so the record is among the results of the pass exactly then;
    its rank is never negative. *)
Theorem searchForSingleWord_finds :
  forall (w : World) (word : string) (partialMatch : bool)
         (searchModel : CommonSearchModel Content),
    Js.truthy word = true ->
    In searchModel (rawData w) ->
    positiveWeights searchModel ->
    let synonyms := fst (getSynonyms word w) in
    let scored := getSearchRank searchModel synonyms word partialMatch in
    hasPositiveRank scored
    = existsb (fieldFound synonyms word partialMatch) (criteriaOf searchModel)
    /\ (In scored (results (fst (searchForSingleWord word partialMatch w)))
        <-> existsb (fieldFound synonyms word partialMatch) (criteriaOf searchModel) = true)
    /\ (0 <= rankOf scored)%Z.
Proof.
  intros w word partialMatch searchModel Hword Hin Hweights synonyms scored.
  destruct (hasPositiveRank_found searchModel synonyms word partialMatch Hweights)
    as [Hpos Hle]. fold scored in Hpos, Hle.
  split; [exact Hpos |]. split; [| exact Hle].
  rewrite (searchForSingleWord_scores word partialMatch w Hword). cbn [fst results].
  fold synonyms. rewrite <- Hpos. split.
  - intros Hres. apply (Permutation_in _ (sortDesc_perm rankOf _)) in Hres.
    apply filter_In in Hres. apply Hres.
  - intros Hp. apply (Permutation_in _ (Permutation_sym (sortDesc_perm rankOf _))).
    apply filter_In. split; [| exact Hp].
    apply in_map_iff. exists searchModel. split; [reflexivity | exact Hin].
Qed.

Lemma SearchElement_nested_ind (P : SearchElement -> Prop) :
  P Undefined ->
  (forall s, P (Str s)) ->
  (forall elements, Forall P elements -> P (Arr elements)) ->
  forall element, P element.
Proof.
  intros Hundefined Hstr Harr. fix IH 1. intros [| s | elements].
  - exact Hundefined.
  - apply Hstr.
  - apply Harr. induction elements as [|element elements IHelements]; constructor.
    + apply IH.
    + exact IHelements.
Qed.

Lemma split_head_prefix (s : string) :
  match Js.split s with
  | piece :: _ => String.prefix piece s = true
  | [] => False
  end.
Proof.
  induction s as [|c s IH]; cbn [Js.split].
  - reflexivity.
  - destruct (Ascii.eqb c " "); [reflexivity |].
    destruct (Js.split s) as [|piece pieces]; [contradiction |].
    cbn [String.prefix]. destruct (ascii_dec c c) as [_ | Hc]; [exact IH | now elim Hc].
Qed.

(** A piece of a string split on spaces is a part of the string. *)
Lemma split_piece_included (s piece : string) :
  In piece (Js.split s) -> Js.includes s piece = true.
Proof.
  induction s as [|c s IH]; intros Hin.
  - destruct Hin as [<- | []]. reflexivity.
  - cbn [Js.includes]. apply orb_true_iff.
    cbn [Js.split] in Hin. pose proof (split_head_prefix s) as Hhead.
    destruct (Ascii.eqb c " ").
    + destruct Hin as [<- | Hin]; [left; reflexivity | right; apply IH, Hin].
    + destruct (Js.split s) as [|first pieces]; [contradiction |].
      destruct Hin as [<- | Hin].
      * left. cbn [String.prefix].
        destruct (ascii_dec c c) as [_ | Hc]; [exact Hhead | now elim Hc].
      * right. apply IH. now right.
Qed.

Lemma matchKeywordToSynonym_relaxes (syn : string) (element : SearchElement) :
  matchKeywordToSynonym syn element true = true ->
  matchKeywordToSynonym syn element false = true.
Proof.
  induction element as [| s | elements IH] using SearchElement_nested_ind.
  - cbn [matchKeywordToSynonym orEmpty]. intros Hfull. apply arrayIncludes_In in Hfull.
    now apply split_piece_included in Hfull.
  - cbn [matchKeywordToSynonym orEmpty]. intros Hfull. apply arrayIncludes_In in Hfull.
    now apply split_piece_included in Hfull.
  - rewrite !matchKeywordToSynonym_Arr. intros Hfull.
    apply existsb_exists in Hfull. destruct Hfull as (el & Hin & Hel).
    apply existsb_exists. exists el. split; [exact Hin |].
    rewrite Forall_forall in IH. now apply IH.
Qed.

Lemma compareSynonym_relaxes (searchModel : SearchRankModel) (syn searchWord : string) :
  fst (compareSynonym searchModel syn searchWord false) = true ->
  fst (compareSynonym searchModel syn searchWord true) = true.
Proof.
  unfold compareSynonym. cbn [fst].
  destruct (if negb (String.eqb syn searchWord) && negb (fullMatch searchModel)
            then negb (String.eqb syn searchWord) && negb (fullMatch searchModel)
            else fullMatch searchModel); [| trivial].
  destruct (searchElement searchModel) as [| s | elements].
  - apply matchKeywordToSynonym_relaxes.
  - apply matchKeywordToSynonym_relaxes.
  - rewrite !findIndex_found. intros Hfull.
    apply existsb_exists in Hfull. destruct Hfull as (el & Hin & Hel).
    apply existsb_exists. exists el. split; [exact Hin |].
    now apply matchKeywordToSynonym_relaxes.
Qed.

Lemma synonymLoop_found (searchModel : SearchRankModel) (searchWord : string)
      (partialMatch : bool) (searchWithSynonyms : list string) :
  forall flag,
    found (synonymLoop searchModel searchWithSynonyms searchWord partialMatch flag)
    = existsb (fun s => fst (compareSynonym searchModel s searchWord partialMatch))
              searchWithSynonyms.
Proof.
  induction searchWithSynonyms as [|s rest IH]; intros flag; [reflexivity |].
  cbn [synonymLoop existsb].
  destruct (compareSynonym searchModel s searchWord partialMatch) as [isFound isSynonym].
  cbn [fst]. destruct isFound; [reflexivity | apply IH].
Qed.

Lemma fieldFound_relaxes (searchWithSynonyms : list string) (searchWord : string)
      (el : SearchRankModel) :
  fieldFound searchWithSynonyms searchWord false el = true ->
  fieldFound searchWithSynonyms searchWord true el = true.
Proof.
  unfold fieldFound, isKeyWordFoundInSynonym.
  destruct (isFalsy (searchElement el)); [trivial |].
  rewrite !synonymLoop_found. intros Hstrict.
  apply existsb_exists in Hstrict. destruct Hstrict as (s & Hin & Hs).
  apply existsb_exists. exists s. split; [exact Hin |].
  now apply compareSynonym_relaxes.
Qed.

(** X17. The relaxed comparison of Tier 3 loses nothing: a ranked field
    that matches in the ordinary mode matches in the relaxed mode, for
    strings, missing values and arrays alike; with positive weights a
    record that has a positive rank in the ordinary mode has one in the
    relaxed mode. *)
Theorem partialMatch_relaxes :
  forall (searchModel : CommonSearchModel Content) (searchWithSynonyms : list string)
         (searchWord : string),
    positiveWeights searchModel ->
    (forall el,
        fieldFound searchWithSynonyms searchWord false el = true ->
        fieldFound searchWithSynonyms searchWord true el = true)
    /\ (hasPositiveRank (getSearchRank searchModel searchWithSynonyms searchWord false)
        = true ->
        hasPositiveRank (getSearchRank searchModel searchWithSynonyms searchWord true)
        = true).
Proof.
  intros searchModel searchWithSynonyms searchWord Hweights. split.
  - intros el. apply fieldFound_relaxes.
  - destruct (hasPositiveRank_found searchModel searchWithSynonyms searchWord false
                                    Hweights) as [-> _].
    destruct (hasPositiveRank_found searchModel searchWithSynonyms searchWord true
                                    Hweights) as [-> _].
    intros Hstrict. apply existsb_exists in Hstrict. destruct Hstrict as (el & Hin & Hel).
    apply existsb_exists. exists el. split; [exact Hin |].
    now apply fieldFound_relaxes.
Qed.

End Found.

(** ** Tokens, case and symmetry *)

Section Details.
Context `{Integrator}.

Lemma filter_insertDesc {A : Type} (key : A -> Z) (k : Z) (x : A) (sorted : list A) :
  filter (fun y => (key y =? k)%Z) (Js.insertDesc key x sorted)
  = if (key x =? k)%Z then x :: filter (fun y => (key y =? k)%Z) sorted
    else filter (fun y => (key y =? k)%Z) sorted.
Proof.
  induction sorted as [|y sorted IH]; cbn [Js.insertDesc filter].
  - reflexivity.
  - destruct (key y <=? key x)%Z eqn:E; cbn [filter]; [reflexivity |].
    rewrite IH. apply Z.leb_gt in E.
    destruct (key x =? k)%Z eqn:Ex; destruct (key y =? k)%Z eqn:Ey; try reflexivity.
    apply Z.eqb_eq in Ex, Ey. lia.
Qed.

(** The sort keeps elements of equal key in their order. *)
Lemma sortDesc_stable {A : Type} (key : A -> Z) (k : Z) (arr : list A) :
  filter (fun y => (key y =? k)%Z) (Js.sortDesc key arr)
  = filter (fun y => (key y =? k)%Z) arr.
Proof.
  induction arr as [|x arr IH]; [reflexivity |].
  cbn [Js.sortDesc fold_right]. rewrite filter_insertDesc.
  fold (Js.sortDesc key arr). rewrite IH. reflexivity.
Qed.

Lemma split_not_nil (s : string) : Js.split s <> [].
Proof.
  destruct s as [|c s]; cbn [Js.split]; [discriminate |].
  destruct (Ascii.eqb c " "); [discriminate |].
  destruct (Js.split s); discriminate.
Qed.

Lemma split_several (s : string) :
  (1 <? List.length (Js.split s))%nat = Js.includes s " ".
Proof.
  induction s as [|c s IH]; [reflexivity |].
  cbn [Js.split Js.includes String.prefix].
  destruct (Ascii.eqb c " ") eqn:E.
  - apply Ascii.eqb_eq in E. subst c.
    destruct (ascii_dec " " " ") as [_ | Hc]; [| now elim Hc].
    pose proof (split_not_nil s) as Hsplit.
    destruct (Js.split s); [contradiction |].
    destruct s; reflexivity.
  - destruct (ascii_dec " " c) as [<- | _];
      [rewrite Ascii.eqb_refl in E; discriminate |].
    cbn [orb]. rewrite <- IH.
    pose proof (split_not_nil s) as Hsplit.
    destruct (Js.split s); [contradiction | reflexivity].
Qed.

(** X18. The per-word pass is possible exactly when the normalised query
    holds a space; its tokens are all the pieces between the spaces, empty
    pieces included, each as often as it occurs, longer ones before shorter
    ones and equally long ones in the order of the query. *)
Theorem secondSearchTerm_order :
  forall (word : string) (n : nat),
    (1 <? List.length (Js.split word))%nat = Js.includes word " "
    /\ List.length (secondSearchTerm word) = List.length (Js.split word)
    /\ StronglySorted longerOrEqual (secondSearchTerm word)
    /\ filter (fun token => (String.length token =? n)%nat) (secondSearchTerm word)
       = filter (fun token => (String.length token =? n)%nat) (Js.split word).
Proof.
  intros word n. split; [apply split_several |]. split; [apply sortDesc_length |]. split.
  - eapply StronglySorted_weaken; [| apply sortDesc_sorted].
    intros a b. unfold longerOrEqual, Js.strLength. lia.
  - unfold secondSearchTerm.
    rewrite (filter_ext (fun token => (String.length token =? n)%nat)
                        (fun token => (Js.strLength token =? Z.of_nat n)%Z)).
    + rewrite sortDesc_stable. apply filter_ext. intros token. unfold Js.strLength.
      destruct (String.length token =? n)%nat eqn:E.
      * apply Nat.eqb_eq in E. apply Z.eqb_eq. lia.
      * apply Nat.eqb_neq in E. apply Z.eqb_neq. lia.
    + intros token. unfold Js.strLength.
      destruct (String.length token =? n)%nat eqn:E.
      * apply Nat.eqb_eq in E. symmetry. apply Z.eqb_eq. lia.
      * apply Nat.eqb_neq in E. symmetry. apply Z.eqb_neq. lia.
Qed.

Lemma matchKeywordToSynonym_lower_synonym (syn : string) (isFullMatch : bool)
      (element : SearchElement) :
  matchKeywordToSynonym (Js.toLowerCase syn) element isFullMatch
  = matchKeywordToSynonym syn element isFullMatch.
Proof.
  induction element as [| s | elements IH] using SearchElement_nested_ind.
  - cbn [matchKeywordToSynonym]. now rewrite toLowerCase_idempotent.
  - cbn [matchKeywordToSynonym]. now rewrite toLowerCase_idempotent.
  - rewrite !matchKeywordToSynonym_Arr.
    induction IH as [|el elements Hel _ IHelements]; [reflexivity |].
    cbn [existsb]. now rewrite Hel, IHelements.
Qed.

(** X19. Comparison ignores case on both sides: a synonym is compared like
    its lower-cased form against strings, missing values and arrays, and a
    string value is compared like its lower-cased form, in both modes. *)
Theorem matchKeywordToSynonym_ignores_case :
  forall (syn : string) (isFullMatch : bool) (element : SearchElement) (value : string),
    matchKeywordToSynonym (Js.toLowerCase syn) element isFullMatch
    = matchKeywordToSynonym syn element isFullMatch
    /\ matchKeywordToSynonym syn (Str (Js.toLowerCase value)) isFullMatch
       = matchKeywordToSynonym syn (Str value) isFullMatch.
Proof.
  intros syn isFullMatch element value. split.
  - apply matchKeywordToSynonym_lower_synonym.
  - cbn [matchKeywordToSynonym orEmpty]. now rewrite toLowerCase_idempotent.
Qed.

(** X20. On lower-case words the lookup is symmetric: when [x] is among
    the synonyms of [word], [word] is among the synonyms of [x]. *)
Theorem getSynonyms_symmetric :
  forall (w : World) (word x : string),
    Js.toLowerCase word = word ->
    In x (fst (getSynonyms word w)) ->
    In word (fst (getSynonyms x w)).
Proof.
  intros w word x Hlower Hx. apply getSynonyms_members in Hx.
  apply getSynonyms_members. destruct Hx as [-> | (group & Hgroup & Hword & Hin)].
  - left. now rewrite Hlower.
  - right. exists group. auto.
Qed.

End Details.

(** ** The further properties at work *)

Section Samples.

#[local] Existing Instance Demo.service.

(** The sample file has three lines, the last one empty; comments in
    parentheses, the first double space of a word and the white space around
    a word are gone, and words that come out empty are dropped. *)
Example getDefaultSynonyms_sample :
  getDefaultSynonyms Sample.synonymsTxt
  = [["auto"; "pkw"; "fahrbarer  untersatz"]; ["haus"; "heim"]; []].
Proof. reflexivity. Qed.

(** X1 at work on the sample file. *)
Lemma getDefaultSynonyms_words_witness :
  List.length (getDefaultSynonyms Sample.synonymsTxt) = 3
  /\ Js.toLowerCase "pkw" = "pkw"
  /\ Js.trim "pkw" = "pkw".
Proof.
  destruct (getDefaultSynonyms_words Sample.synonymsTxt
                                     ["auto"; "pkw"; "fahrbarer  untersatz"] "pkw")
    as (Hlines & _ & Hlower & Htrim).
  - left. reflexivity.
  - right. left. reflexivity.
  - split; [exact Hlines | split; assumption].
Defined.

(** X3 at work: the sample file loaded into the page search. *)
Lemma loadSynonyms_normalized_witness :
  fst (getSynonyms "" (snd (loadSynonyms Sample.synonymsTxt Demo.fresh))) = [EmptyString]
  /\ rawData (snd (loadSynonyms Sample.synonymsTxt Demo.fresh)) = rawData Demo.fresh.
Proof.
  destruct (loadSynonyms_normalized (H := Demo.service) Sample.synonymsTxt Demo.fresh
                                    "auto" "pkw")
    as (Hempty & Hcache & _).
  - right. left. reflexivity.
  - split; assumption.
Defined.

(** X4 at work: an upper-case word, an empty word and a word without
    group. *)
Lemma getSynonymsOfWord_lookup_witness :
  Js.get "AUTO" (fst (getSynonymsOfWord "AUTO,,haus" Demo.fresh)) = Some [["car"; "auto"]]
  /\ Js.get "__proto__" (fst (getSynonymsOfWord "AUTO,,haus" Demo.fresh)) = None.
Proof.
  destruct (getSynonymsOfWord_lookup (H := Demo.service) Demo.fresh "AUTO,,haus" "AUTO")
    as (Hgroups & _ & _ & _ & Hproto & _).
  - left. reflexivity.
  - discriminate.
  - split; [exact Hgroups | exact Hproto].
Defined.

(** X7 at work: the address of the single mirror is never requested. *)
Lemma getServerData_single_url_witness :
  ~ In (StartFetching 0 "http://m1/p.json")
       (trace (snd (getServerData (H := Sample.oneMirror) (fun _ _ => Throws)
                                  "18:04" None Sample.idle))).
Proof.
  destruct (getServerData_single_url (H := Sample.oneMirror) (fun _ _ => Throws)
                                     "18:04" None Sample.idle "http://m1/p.json" eq_refl)
    as (events & Htrace & _ & Hnever).
  rewrite Htrace. cbn [trace Sample.idle app].
  apply Hnever. vm_compute. repeat constructor.
Defined.

(** X12 at work: three spaces after the query [auto]. *)
Lemma getSearchResult_white_space_witness :
  results (fst (getSearchResult (Some "   ") Demo.used)) = rawData Demo.used
  /\ foundItems (fst (getSearchResult (Some "   ") Demo.used)) = 3.
Proof.
  destruct (getSearchResult_white_space (H := Demo.service) "   " Demo.used
                                        eq_refl eq_refl)
    as (Hresults & Hcount & _).
  split; [exact Hresults | exact Hcount].
Defined.

(** X13 at work: two spellings of one query. *)
Lemma getSearchResult_normalized_witness :
  getSearchResult (Some " Auto ") Demo.fresh = getSearchResult (Some "AUTO") Demo.fresh.
Proof.
  destruct (getSearchResult_normalized (H := Demo.service) " Auto " "AUTO" Demo.fresh
                                       eq_refl eq_refl eq_refl)
    as (Hsame & _).
  exact Hsame.
Defined.

(** X14 at work: the fresh cache and the cache the query [auto] has
    ranked. *)
Lemma getSearchResult_history_independent_witness :
  fst (getSearchResult (Some "Boot") Demo.fresh)
  = fst (getSearchResult (Some "Boot") Demo.used).
Proof.
  destruct (getSearchResult_history_independent
              (H := Demo.service) "Boot" Demo.fresh Demo.used
              (fun searchModel r => eq_refl) eq_refl eq_refl eq_refl eq_refl)
    as (Hsame & _).
  exact Hsame.
Defined.

(** X15 at work. *)
Lemma getSearchResult_idempotent_witness :
  fst (getSearchResult (Some "auto") (snd (getSearchResult (Some "auto") Demo.fresh)))
  = fst (getSearchResult (Some "auto") Demo.fresh).
Proof.
  destruct (getSearchResult_idempotent (H := Demo.service) (Some "auto") Demo.fresh
                                       (fun searchModel r => eq_refl))
    as (Hsame & _).
  exact Hsame.
Defined.

(** X16 at work on the first record of the cache. *)
Lemma searchForSingleWord_finds_witness :
  In (getSearchRank (Demo.record "Autoversicherung" "auto insurance" None)
                    (fst (getSynonyms "auto" Demo.fresh)) "auto" false)
     (results (fst (searchForSingleWord "auto" false Demo.fresh))).
Proof.
  destruct (searchForSingleWord_finds
              (H := Demo.service) Demo.fresh "auto" false
              (Demo.record "Autoversicherung" "auto insurance" None) eq_refl)
    as (_ & Hfound & _).
  - left. reflexivity.
  - repeat constructor.
  - apply Hfound. reflexivity.
Defined.

(** X17 at work. *)
Lemma partialMatch_relaxes_witness :
  hasPositiveRank (getSearchRank (Demo.record "Haus" "car park" None)
                                 ["auto"; "car"] "auto" true) = true.
Proof.
  destruct (partialMatch_relaxes (H := Demo.service)
                                 (Demo.record "Haus" "car park" None)
                                 ["auto"; "car"] "auto")
    as (_ & Hrelaxed).
  - repeat constructor.
  - apply Hrelaxed. reflexivity.
Defined.

(** X20 at work. *)
Lemma getSynonyms_symmetric_witness :
  In "auto" (fst (getSynonyms "car" Demo.fresh)).
Proof.
  apply (getSynonyms_symmetric (H := Demo.service) Demo.fresh "auto" "car" eq_refl).
  right. left. reflexivity.
Defined.

End Samples.

(** ** Additive scoring, against the words of the specification *)

Section AdditiveScoring.
Context `{Integrator}.

Lemma find_same {A : Type} (f g : A -> bool) (l : list A) :
  (forall x, f x = g x) -> find f l = find g l.
Proof.
  intros Hsame. induction l as [|x l IH]; simpl; [reflexivity |].
  rewrite Hsame, IH. reflexivity.
Qed.

Lemma existsb_same {A : Type} (f g : A -> bool) (l : list A) :
  (forall x, f x = g x) -> existsb f l = existsb g l.
Proof.
  intros Hsame. induction l as [|x l IH]; simpl; [reflexivity |].
  rewrite Hsame, IH. reflexivity.
Qed.

(** The matcher of the service compares as the modes of the specification
    say, through arrays of any depth. *)
Lemma matchKeywordToSynonym_elementMatches (syn : string) (mode : MatchMode)
      (element : SearchElement) :
  matchKeywordToSynonym syn element (isWholeWord mode) = elementMatches mode syn element.
Proof.
  induction element as [| s | elements IH] using SearchElement_nested_ind.
  - destruct mode; reflexivity.
  - apply matchKeywordToSynonym_Str.
  - rewrite matchKeywordToSynonym_Arr. cbn [elementMatches].
    induction IH as [|el elements Hel _ IHelements]; [reflexivity |].
    cbn [existsb]. now rewrite Hel, IHelements.
Qed.

Lemma compareSynonym_synonymMatches (field : SearchRankModel) (syn searchWord : string)
      (relax : bool) :
  fst (compareSynonym field syn searchWord relax)
  = synonymMatches field searchWord relax syn.
Proof.
  unfold compareSynonym, synonymMatches. cbn [fst].
  fold (synonymHit field syn searchWord).
  rewrite <- (isWholeWord_comparisonMode relax (fullMatch field)
                                         (synonymHit field syn searchWord)).
  destruct (searchElement field) as [| s | elements].
  - apply matchKeywordToSynonym_elementMatches.
  - apply matchKeywordToSynonym_elementMatches.
  - rewrite findIndex_found. cbn [elementMatches].
    apply existsb_same. intros el. apply matchKeywordToSynonym_elementMatches.
Qed.

(** What the service finds in a field is the hit of the specification. *)
Lemma fieldHit_hitOf (synonyms : list string) (searchWord : string) (relax : bool)
      (field : SearchRankModel) :
  fieldHit synonyms searchWord relax field = hitOf synonyms searchWord relax field.
Proof.
  unfold fieldHit, hitOf, matchingSynonym, isKeyWordFoundInSynonym.
  assert (Hguard : isFalsy (searchElement field) = negb (hasValue (searchElement field))).
  { destruct (searchElement field) as [| [|c s] | elements]; reflexivity. }
  rewrite Hguard. destruct (hasValue (searchElement field)); cbn [negb]; [| reflexivity].
  pose proof (synonymLoop_find field searchWord relax synonyms false) as Hloop.
  rewrite (find_same _ (synonymMatches field searchWord relax)) in Hloop
    by (intros s; apply compareSynonym_synonymMatches).
  destruct (find (synonymMatches field searchWord relax) synonyms) as [syn |].
  - rewrite Hloop. reflexivity.
  - rewrite Hloop. reflexivity.
Qed.

Lemma toNumber_safe (z : Z) : (Z.abs z <=? 2 ^ 53)%Z = true -> Js.toNumber z = z.
Proof. intros Hsafe. unfold Js.toNumber. cbv zeta. now rewrite Hsafe. Qed.

(** While the running sums are safe integers, the numbers add up to the
    sum. *)
Lemma numberSum_exact (weights : list Z) :
  forall acc : Z,
    safeFrom acc weights = true ->
    fold_left Js.addNumber weights acc = (acc + sumZ weights)%Z.
Proof.
  induction weights as [|x rest IH]; intros acc Hsafe; simpl.
  - lia.
  - simpl in Hsafe. apply andb_true_iff in Hsafe. destruct Hsafe as [Hhere Hrest].
    apply andb_true_iff in Hhere. destruct Hhere as [_ Hsum].
    unfold Js.addNumber at 2. rewrite (toNumber_safe _ Hsum), (IH _ Hrest). lia.
Qed.

(** The rank of the code is the running sum, in numbers, of the weights of
    the fields that match. *)
Lemma fold_addHit_hitWeights (synonyms : list string) (searchWord : string) (relax : bool)
      (criteria : list SearchRankModel) :
  forall a : Z,
    fold_left (addHit synonyms searchWord relax) criteria a
    = fold_left Js.addNumber (hitWeights synonyms searchWord relax criteria) a.
Proof.
  induction criteria as [|field criteria IH]; intros a; [reflexivity |].
  cbn [fold_left hitWeights flat_map]. fold (hitWeights synonyms searchWord relax criteria).
  rewrite fold_left_app, IH. unfold addHit. rewrite fieldHit_hitOf.
  destruct (hitOf synonyms searchWord relax field); reflexivity.
Qed.

Lemma getSearchRank_numberSum (r : CommonSearchModel Content) (synonyms : list string)
      (searchWord : string) (relax : bool) :
  searchRank (getSearchRank r synonyms searchWord relax)
  = Some (numberSum (hitWeights synonyms searchWord relax (criteriaOf r))).
Proof. rewrite getSearchRank_rank, fold_addHit_hitWeights. reflexivity. Qed.

Lemma hitWeights_none (synonyms : list string) (searchWord : string) (relax : bool)
      (criteria : list SearchRankModel) :
  Forall (fun field => hitOf synonyms searchWord relax field = NoHit) criteria ->
  hitWeights synonyms searchWord relax criteria = [].
Proof.
  induction 1 as [|field criteria Hfield _ IH]; [reflexivity |].
  cbn [hitWeights flat_map]. fold (hitWeights synonyms searchWord relax criteria).
  rewrite Hfield, IH. reflexivity.
Qed.

(** C2, as the code has it. For every record and synonym set, with
    integer weights whose running sums are safe integers (up to [2 ^ 53] in
    magnitude, where the numbers of JavaScript add exactly), the rank that
    [getSearchRank] leaves on the record is the sum, over the fields declared
    by [getSearchCriteria] whose value matches, of the base weight of a
    field hit literally and of the synonym weight of a field hit through a
    synonym; without that bound it is the sum as the numbers round it.  A
    field whose value is missing or empty never matches.  In a scoring pass,
    which [searchForSingleWord] runs for a word that is not empty, a record
    without matching field has rank 0 and is not among the results, and the
    results are the scored records of positive rank in descending order of
    rank. *)
Theorem searchRank_sum_of_hits :
  forall (w : World) (word : string) (partialMatch : bool),
    Js.truthy word = true ->
    let synonyms := fst (getSynonyms word w) in
    let score := fun r => getSearchRank r synonyms word partialMatch in
    let result := fst (searchForSingleWord word partialMatch w) in
    (forall (r : CommonSearchModel Content) (searchWithSynonyms : list string)
            (searchWord : string) (relax : bool),
        (exactSums (hitWeights searchWithSynonyms searchWord relax (criteriaOf r)) ->
         searchRank (getSearchRank r searchWithSynonyms searchWord relax)
         = Some (sumZ (hitWeights searchWithSynonyms searchWord relax (criteriaOf r))))
        /\ searchRank (getSearchRank r searchWithSynonyms searchWord relax)
           = Some (numberSum (hitWeights searchWithSynonyms searchWord relax
                                         (criteriaOf r))))
    /\ (forall r : CommonSearchModel Content,
           Forall (fun field => hitOf synonyms word partialMatch field = NoHit)
                  (criteriaOf r) ->
           searchRank (score r) = Some 0%Z /\ ~ In (score r) (results result))
    /\ (forall (field : SearchRankModel) (searchWithSynonyms : list string)
               (searchWord : string) (relax : bool),
           hasValue (searchElement field) = false ->
           hitOf searchWithSynonyms searchWord relax field = NoHit)
    /\ Permutation (results result) (filter hasPositiveRank (map score (rawData w)))
    /\ StronglySorted rankedAbove (results result)
    /\ foundItems result = List.length (results result)
    /\ rawData (snd (searchForSingleWord word partialMatch w)) = map score (rawData w).
Proof.
  intros w word partialMatch Hword synonyms score result.
  subst result. rewrite (searchForSingleWord_scores word partialMatch w Hword).
  cbn [fst snd results foundItems rawData]. fold synonyms. fold score.
  assert (Hzero : forall r : CommonSearchModel Content,
             Forall (fun field => hitOf synonyms word partialMatch field = NoHit)
                    (criteriaOf r) ->
             searchRank (score r) = Some 0%Z).
  { intros r Hnone. unfold score.
    rewrite getSearchRank_numberSum, (hitWeights_none _ _ _ _ Hnone). reflexivity. }
  split; [| split; [| split; [| split; [| split; [| split]]]]].
  - intros r searchWithSynonyms searchWord relax. split; [| apply getSearchRank_numberSum].
    intros Hexact. rewrite getSearchRank_numberSum. f_equal.
    unfold numberSum. rewrite (numberSum_exact _ 0%Z Hexact). lia.
  - intros r Hnone. split; [apply Hzero, Hnone |].
    intros Hin. apply (Permutation_in _ (sortDesc_perm rankOf _)) in Hin.
    apply filter_In in Hin. destruct Hin as [_ Hpos].
    unfold hasPositiveRank in Hpos. rewrite (Hzero r Hnone) in Hpos. discriminate.
  - intros field searchWithSynonyms searchWord relax Hvalue.
    unfold hitOf, matchingSynonym. now rewrite Hvalue.
  - apply sortDesc_perm.
  - apply sortDesc_sorted.
  - reflexivity.
  - reflexivity.
Qed.

End AdditiveScoring.

Section AdditiveScoringAtWork.

#[local] Existing Instance Demo.service.

(** C2 at work on the query [auto] with the synonym [car]: a name and a
    description that hold the word are literal hits of weights 3 and 2, and
    the rank is 5; a description that holds only the synonym is a synonym
    hit, and the rank is the synonym weight 1; a record without match is
    left out; the results of the pass have the ranks 5 and 1, in this
    order. *)
Lemma searchRank_sum_of_hits_witness :
  Js.truthy "auto" = true
  /\ hitWeights ["auto"; "car"] "auto" false
                (criteriaOf (Demo.record "Autoversicherung" "auto insurance" None))
     = [3%Z; 2%Z]
  /\ searchRank (getSearchRank (Demo.record "Autoversicherung" "auto insurance" None)
                               ["auto"; "car"] "auto" false) = Some 5%Z
  /\ hitWeights ["auto"; "car"] "auto" false
                (criteriaOf (Demo.record "Haus" "car park" None))
     = [1%Z]
  /\ searchRank (getSearchRank (Demo.record "Haus" "car park" None)
                               ["auto"; "car"] "auto" false) = Some 1%Z
  /\ ~ In (getSearchRank (Demo.record "Boot" "ship" None) ["auto"; "car"] "auto" false)
          (results (fst (searchForSingleWord "auto" false Demo.fresh)))
  /\ map searchRank (results (fst (searchForSingleWord "auto" false Demo.fresh)))
     = [Some 5%Z; Some 1%Z]
  /\ StronglySorted rankedAbove
                    (results (fst (searchForSingleWord "auto" false Demo.fresh))).
Proof.
  split; [reflexivity |].
  destruct (searchRank_sum_of_hits (H := Demo.service) Demo.fresh "auto" false eq_refl)
    as (Hsum & Hnone & _ & _ & Hsorted & _).
  split; [reflexivity |]. split; [| split; [reflexivity |]].
  - exact (proj1 (Hsum (Demo.record "Autoversicherung" "auto insurance" None)
                       ["auto"; "car"] "auto" false) eq_refl).
  - split; [| split; [| split]].
    + exact (proj1 (Hsum (Demo.record "Haus" "car park" None)
                         ["auto"; "car"] "auto" false) eq_refl).
    + apply (Hnone (Demo.record "Boot" "ship" None)). repeat constructor.
    + reflexivity.
    + exact Hsorted.
Defined.

(** C2 as stated fails for the empty word, where nothing is scored: after
    the query [car] left the ranks 1, 2 and 0, [searchForSingleWord] answers
    the empty word with the whole cache, which is not in descending order of
    rank, holds a record of rank 0, and carries ranks that are not the sums
    of the weights of the fields that hold the empty word.  It fails as well
    beyond the safe integers: two literal hits of weights [2 ^ 53] and 1
    leave the rank [2 ^ 53]. *)
Lemma searchForSingleWord_empty_word_unsorted :
  let result := fst (searchForSingleWord "" false Sample.ranked) in
  results result = rawData Sample.ranked
  /\ map searchRank (results result) = [Some 1%Z; Some 2%Z; Some 0%Z]
  /\ ~ StronglySorted rankedAbove (results result)
  /\ In (Demo.record "Boot" "ship" (Some 0%Z)) (results result)
  /\ map (fun r => Some (sumZ (hitWeights (fst (getSynonyms "" Sample.ranked)) "" false
                                          (criteriaOf r)))) (rawData Sample.ranked)
     = [Some 5%Z; Some 5%Z; Some 5%Z]
  /\ (hitWeights ["auto"] "auto" false
                 (criteriaOf (H := Sample.heavy) (Demo.record "auto" "auto" None))
      = [(2 ^ 53)%Z; 1%Z]
      /\ searchRank (getSearchRank (H := Sample.heavy) (Demo.record "auto" "auto" None)
                                   ["auto"] "auto" false)
         = Some (2 ^ 53)%Z).
Proof.
  split; [reflexivity |]. split; [reflexivity |].
  split; [| split; [| split]].
  - intros Hsorted.
    remember (results (fst (searchForSingleWord "" false Sample.ranked))) as l eqn:Hl.
    vm_compute in Hl. subst l.
    inversion Hsorted as [|? ? _ Hfirst]; subst.
    inversion Hfirst as [|? ? Hle _]; subst.
    unfold rankedAbove, rankOf in Hle. cbn in Hle. lia.
  - vm_compute. right. right. left. reflexivity.
  - reflexivity.
  - split; vm_compute; reflexivity.
Qed.

End AdditiveScoringAtWork.
